(** * Image optimizer: size-targeting search and batch orchestration

    A shallow embedding of [images_optimizer/optimizer.py] (single image),
    [images_optimizer/multiple_images_optimizer.py] (batch) and
    [text_color_formatting/colors.py] (the styles both print with), with
    the properties of the specification stated and settled on it, and
    further properties of the code.

    Conventions of the embedding.
    - Python integers are [Z].  File sizes in KB ([os.path.getsize(p) / 1024])
      are rationals [Q], kept in lowest terms: the division by 1024 is exact
      in binary floating point, so every comparison of the source is decided
      as written.  Savings percentages are exact rationals too; the rounding
      of their float arithmetic is not modelled and no property here depends
      on it.
    - Pillow, the operating system and Python's builtins are external
      collaborators: the class [Externals] lists what the code calls.
    - A call that may raise returns [res]; [optimize_image]'s
      [except Exception] turns a raise into an error dictionary.
    - An image that [Image.open] returns is taken as decoded: the
      [img.copy()] and [convert("RGB")] that [optimize_to_target_size]
      starts with are total here, so nothing is stated about an exception
      raised by them, before the first save.
    - A folder is the list of the names of its entries; [glob] matches
      names case-sensitively.
    - Logging, the printed summary and the report file are left out: they
      format floats and read the clock, and change neither what a function
      returns nor what it writes to the output folder.
    - The two [while] loops run on fuel; the fuel handed to them is shown to
      be enough ([down_loop_enough], [up_loop_enough]), so a run never ends
      by exhaustion. *)

From Stdlib Require Import ZArith QArith Lia Lqa Bool List Ascii String ZifyBool.
From Stdlib Require Import DecimalString.
From stdpp Require Import gmap strings.
Set Warnings "-register-all,-clear-no-such-hyp".
Open Scope bool_scope.
Import ListNotations.
Open Scope string_scope.
Open Scope list_scope.
Open Scope Z_scope.

(** ** Python values and results *)

(** The values that occur in the dictionaries the scripts build. *)
Inductive value :=
| VNone
| VBool (b : bool)
| VInt (n : Z)
| VFloat (q : Q)
| VStr (s : string)
| VDict (d : list (string * value)).

Definition dict := list (string * value).

(** [d[k]] / [d.get(k)]: the first binding of [k]. *)
Fixpoint dict_get (k : string) (d : dict) : option value :=
  match d with
  | [] => None
  | (k', v) :: d' => if String.eqb k k' then Some v else dict_get k d'
  end.

(** [d[k] = v]: replaces the binding of [k] in place, or adds it last. *)
Fixpoint dict_set (k : string) (v : value) (d : dict) : dict :=
  match d with
  | [] => [(k, v)]
  | (k', v') :: d' =>
      if String.eqb k k' then (k, v) :: d' else (k', v') :: dict_set k v d'
  end.

Definition dict_keys (d : dict) : list string := map fst d.

(** The outcome of a call that may raise: [Raise e] carries [str(e)]. *)
Inductive res (A : Type) :=
| Ok (a : A)
| Raise (e : string).
Arguments Ok {A} a.
Arguments Raise {A} e.

(** ** Strings *)

Definition upper_ascii (c : ascii) : ascii :=
  let n := nat_of_ascii c in
  if (Nat.leb 97 n && Nat.leb n 122)%bool then ascii_of_nat (n - 32) else c.

Definition lower_ascii (c : ascii) : ascii :=
  let n := nat_of_ascii c in
  if (Nat.leb 65 n && Nat.leb n 90)%bool then ascii_of_nat (n + 32) else c.

(** [str.upper()] and [str.lower()] on ASCII text. *)
Fixpoint upper (s : string) : string :=
  match s with
  | EmptyString => EmptyString
  | String c s' => String (upper_ascii c) (upper s')
  end.

Fixpoint lower (s : string) : string :=
  match s with
  | EmptyString => EmptyString
  | String c s' => String (lower_ascii c) (lower s')
  end.

(** ** Sizes *)

(** [os.path.getsize(p) / 1024], as a fraction in lowest terms. *)
Definition size_kb (bytes : Z) : Q := Qred (bytes # 1024).

(** [a > b] and [a < b] on floats. *)
Definition Qgtb (a b : Q) : bool := negb (Qle_bool a b).
Definition Qltb (a b : Q) : bool := negb (Qle_bool b a).

(** [int(x)]: truncation toward zero. *)
Definition py_int_of_float (x : Q) : Z := Z.quot (Qnum x) (Zpos (Qden x)).

(** ** External collaborators *)

(** A decoded image as the code observes it: [img.size], [img.mode], what
    [img._getexif()] yields ([None] when the attribute is missing, the call
    returns nothing or raises), and the raster itself. *)
Record image (Pixels : Type) := {
  width : Z;
  height : Z;
  mode : string;
  exif_raw : option (list (Z * value));
  pixels : Pixels
}.
Arguments width {Pixels} i.
Arguments height {Pixels} i.
Arguments mode {Pixels} i.
Arguments exif_raw {Pixels} i.
Arguments pixels {Pixels} i.

Class Externals := {
  Pixels : Type;
  (** the LANCZOS resampling of a raster to a new width and height, or the
      library's exception (a size it refuses) *)
  lanczos : Pixels -> Z -> Z -> res Pixels;
  (** [convert("RGB")] on the raster *)
  to_rgb : Pixels -> Pixels;
  (** [img.save(path, format=f, quality=q)] followed by [getsize(path)]:
      the bytes written, or the codec's exception *)
  encode : string -> Z -> image Pixels -> res Z;
  (** [Image.open(path)] *)
  image_open : string -> res (image Pixels);
  (** [os.path.getsize] of a source file *)
  getsize : string -> Z;
  (** [PIL.ExifTags.TAGS] *)
  TAGS : Z -> option string;
  (** [str.strip] and [int(str)], [None] standing for [ValueError] *)
  py_strip : string -> string;
  py_int : string -> option Z
}.

(** ** Module constants (identical in both scripts) *)

Record constants := {
  TARGET_MIN_SIZE_KB : Z;
  TARGET_MAX_SIZE_KB : Z;
  MAX_SIZE_KB : Z;
  INITIAL_QUALITY : Z;
  MIN_QUALITY : Z;
  RESIZE_FACTOR : Q
}.

Definition module_constants : constants := {|
  TARGET_MIN_SIZE_KB := 30;
  TARGET_MAX_SIZE_KB := 90;
  MAX_SIZE_KB := 100;
  INITIAL_QUALITY := 80;
  MIN_QUALITY := 30;
  RESIZE_FACTOR := 8 # 10
|}.

Definition with_TARGET_MAX_SIZE_KB (v : Z) (c : constants) : constants := {|
  TARGET_MIN_SIZE_KB := TARGET_MIN_SIZE_KB c;
  TARGET_MAX_SIZE_KB := v;
  MAX_SIZE_KB := MAX_SIZE_KB c;
  INITIAL_QUALITY := INITIAL_QUALITY c;
  MIN_QUALITY := MIN_QUALITY c;
  RESIZE_FACTOR := RESIZE_FACTOR c
|}.

(** ** The size-targeting optimizer ([optimize_to_target_size])

    The function is textually the same in both scripts (they differ in the
    level of two log lines), so it is embedded once. *)

Section Optimizer.
Context `{E : Externals}.

(** The calls the optimizer makes on its collaborators, in order. *)
Inductive event :=
| ESave (output_path format_name : string) (img : image Pixels) (quality : Z)
| EResize (old_size new_size : Z * Z).

(** The locals of [optimize_to_target_size], the paths that exist, and the
    calls made so far. *)
Record ostate := {
  quality : Z;
  resize_needed : bool;
  resize_count : Z;
  current_img : image Pixels;
  current_size : Q;
  files : gset string;
  calls : list event
}.

Definition set_quality (q : Z) (s : ostate) : ostate :=
  {| quality := q; resize_needed := resize_needed s;
     resize_count := resize_count s; current_img := current_img s;
     current_size := current_size s; files := files s; calls := calls s |}.

Definition set_resize_needed (b : bool) (s : ostate) : ostate :=
  {| quality := quality s; resize_needed := b;
     resize_count := resize_count s; current_img := current_img s;
     current_size := current_size s; files := files s; calls := calls s |}.

Definition set_resize_count (n : Z) (s : ostate) : ostate :=
  {| quality := quality s; resize_needed := resize_needed s;
     resize_count := n; current_img := current_img s;
     current_size := current_size s; files := files s; calls := calls s |}.

Definition set_current_img (i : image Pixels) (s : ostate) : ostate :=
  {| quality := quality s; resize_needed := resize_needed s;
     resize_count := resize_count s; current_img := i;
     current_size := current_size s; files := files s; calls := calls s |}.

Definition set_current_size (k : Q) (s : ostate) : ostate :=
  {| quality := quality s; resize_needed := resize_needed s;
     resize_count := resize_count s; current_img := current_img s;
     current_size := k; files := files s; calls := calls s |}.

Definition add_file (p : string) (s : ostate) : ostate :=
  {| quality := quality s; resize_needed := resize_needed s;
     resize_count := resize_count s; current_img := current_img s;
     current_size := current_size s; files := {[p]} ∪ files s;
     calls := calls s |}.

Definition log (ev : event) (s : ostate) : ostate :=
  {| quality := quality s; resize_needed := resize_needed s;
     resize_count := resize_count s; current_img := current_img s;
     current_size := current_size s; files := files s;
     calls := calls s ++ [ev] |}.

(** [img.resize((w, h), Image.LANCZOS)]: an image of the requested size, or
    the library's exception. *)
Definition resize (img : image Pixels) (w h : Z) : res (image Pixels) :=
  match lanczos (pixels img) w h with
  | Ok p => Ok {| width := w; height := h; mode := mode img;
                  exif_raw := exif_raw img; pixels := p |}
  | Raise e => Raise e
  end.

(** [img.convert("RGB")]. *)
Definition convert_rgb (img : image Pixels) : image Pixels :=
  {| width := width img; height := height img; mode := "RGB";
     exif_raw := exif_raw img; pixels := to_rgb (pixels img) |}.

Section Run.
Variable c : constants.
Variables output_path format_name : string.
Variable initial_quality : Z.

Definition max_resize_attempts : Z := 5.

(** [img.save(output_path, format=format_name, quality=q)] and
    [os.path.getsize(output_path) / 1024]; a successful save leaves the
    output file in place. *)
Definition save (img : image Pixels) (q : Z) (s : ostate) : ostate * res Q :=
  let s' := log (ESave output_path format_name img q) s in
  match encode format_name q img with
  | Ok bytes => (add_file output_path s', Ok (size_kb bytes))
  | Raise e => (s', Raise e)
  end.

(** One evaluation of a loop: its test and, when it holds, its body. *)
Inductive step :=
| Continue (s : ostate)
| Break (s : ostate)
| Raised (e : string) (s : ostate).

(** [while current_size > MAX_SIZE_KB: ...] *)
Definition down_body (s : ostate) : step :=
  if Qgtb (current_size s) (inject_Z (MAX_SIZE_KB c)) then
    if quality s >? MIN_QUALITY c then
      let reduction :=
        if Qgtb (current_size s) (inject_Z (2 * MAX_SIZE_KB c))
        then 10 else 5 in
      let s1 :=
        set_quality (Z.max (MIN_QUALITY c) (quality s - reduction)) s in
      match save (current_img s1) (quality s1) s1 with
      | (s2, Ok size) => Continue (set_current_size size s2)
      | (s2, Raise e) => Raised e s2
      end
    else if resize_count s >=? max_resize_attempts then Break s
    else
      let old_width := width (current_img s) in
      let old_height := height (current_img s) in
      let new_width :=
        py_int_of_float (inject_Z old_width * RESIZE_FACTOR c) in
      let new_height :=
        py_int_of_float (inject_Z old_height * RESIZE_FACTOR c) in
      let s1 :=
        log (EResize (old_width, old_height) (new_width, new_height)) s in
      match resize (current_img s1) new_width new_height with
      | Raise e => Raised e s1
      | Ok img' =>
          let s2 := set_quality initial_quality (set_current_img img' s1) in
          match save (current_img s2) (quality s2) s2 with
          | (s3, Ok size) =>
              let s4 := set_current_size size s3 in
              let s5 := set_resize_needed true s4 in
              Continue (set_resize_count (resize_count s5 + 1) s5)
          | (s3, Raise e) => Raised e s3
          end
      end
  else Break s.

(** [while current_size < TARGET_MIN_SIZE_KB and quality < 98: ...] *)
Definition up_body (s : ostate) : step :=
  if Qltb (current_size s) (inject_Z (TARGET_MIN_SIZE_KB c))
     && (quality s <? 98) then
    let s1 := set_quality (quality s + 5) s in
    let s2 := if quality s1 >? 98 then set_quality 98 s1 else s1 in
    match save (current_img s2) (quality s2) s2 with
    | (s3, Raise e) => Raised e s3
    | (s3, Ok new_size) =>
        if Qgtb new_size (inject_Z (MAX_SIZE_KB c)) then
          let s4 := set_quality (quality s3 - 5) s3 in
          match save (current_img s4) (quality s4) s4 with
          | (s5, Ok size) => Break (set_current_size size s5)
          | (s5, Raise e) => Raised e s5
          end
        else Continue (set_current_size new_size s3)
    end
  else Break s.

(** How a loop, and the function, can end. *)
Inductive outcome :=
| Done (s : ostate)
| Failed (e : string) (s : ostate).

Fixpoint loop (body : ostate -> step) (fuel : nat) (s : ostate)
  : option outcome :=
  match fuel with
  | O => None
  | S fuel' =>
      match body s with
      | Continue s' => loop body fuel' s'
      | Break s' => Some (Done s')
      | Raised e s' => Some (Failed e s')
      end
  end.

(** Iterations the downward loop can need: the quality walks from
    [initial_quality] to the floor once per image size, and there are at
    most six sizes. *)
Definition down_fuel : nat :=
  (6 * S (Z.to_nat (initial_quality - MIN_QUALITY c)))%nat.

(** Iterations the upward loop can need from quality [q]. *)
Definition up_fuel (q : Z) : nat := S (Z.to_nat (98 - q)).

(** [current_img = img.copy()], converted to RGB when the target is JPEG and
    the image has an alpha channel.  Both calls are taken to succeed. *)
Definition working_copy (img : image Pixels) : image Pixels :=
  if String.eqb (upper format_name) "JPEG" && String.eqb (mode img) "RGBA"
  then convert_rgb img else img.

(** The locals before the first save. *)
Definition start (img : image Pixels) (fs : gset string) : ostate :=
  {| quality := initial_quality; resize_needed := false; resize_count := 0;
     current_img := working_copy img; current_size := 0; files := fs;
     calls := [] |}.

Definition optimize_to_target_size (img : image Pixels) (fs : gset string)
  : option outcome :=
  let s0 := start img fs in
  match save (current_img s0) (quality s0) s0 with
  | (s1, Raise e) => Some (Failed e s1)
  | (s1, Ok size) =>
      match loop down_body down_fuel (set_current_size size s1) with
      | None => None
      | Some (Failed e s2) => Some (Failed e s2)
      | Some (Done s2) =>
          if Qltb (current_size s2) (inject_Z (TARGET_MIN_SIZE_KB c))
             && negb (resize_needed s2)
          then loop up_body (up_fuel (quality s2)) s2
          else Some (Done s2)
      end
  end.

(** [return current_size, quality, resize_needed] *)
Definition returned (s : ostate) : Q * Z * bool :=
  (current_size s, quality s, resize_needed s).

End Run.
End Optimizer.

(** ** Paths, metadata and result dictionaries *)

(** A [pathlib.Path] by the parts the code reads: [parent], [stem] and the
    extension. *)
Record pypath := {
  parent : string;
  stem : string;
  suffix : string
}.

(** [str(path)] *)
Definition path_str (p : pypath) : string :=
  parent p +:+ "/" +:+ stem p +:+ suffix p.

(** [str(n)] for an integer. *)
Definition str_of_int (n : Z) : string :=
  DecimalString.NilZero.string_of_int (Z.to_int n).

(** [x / y] on floats: [ZeroDivisionError] when [y] is zero. *)
Definition py_div (x y : Q) : res Q :=
  if Qeq_bool y 0 then Raise "float division by zero"
  else Ok (Qred (x / y))%Q.

(** [((original_size - size) / original_size) * 100] *)
Definition savings_of (original_size size : Q) : res Q :=
  match py_div (original_size - size)%Q original_size with
  | Ok r => Ok (Qred (r * 100))%Q
  | Raise e => Raise e
  end.

Section Results.
Context `{E : Externals}.

(** [preserve_metadata(img)]: the named EXIF tags of the image, or [None]. *)
Definition preserve_metadata (img : image Pixels) : value :=
  match exif_raw img with
  | Some (item :: items) =>
      VDict (fold_left
               (fun exif_data '(tag, v) =>
                  match TAGS tag with
                  | Some name => dict_set name v exif_data
                  | None => exif_data
                  end)
               (item :: items) [])
  | _ => VNone
  end.

(** [{"path": input_path, "size": original_size,
      "dimensions": f"{img.width}x{img.height}"}] *)
Definition original_entry (input_path : string) (original_size : Q)
    (img : image Pixels) : value :=
  VDict [("path", VStr input_path); ("size", VFloat original_size);
         ("dimensions",
          VStr (str_of_int (width img) +:+ "x" +:+ str_of_int (height img)))].

(** [{"path": p, "size": s, "quality": q, "savings": v, "resized": r}] *)
Definition format_entry (p : string) (r : Q * Z * bool) (savings : Q)
  : value :=
  let '(size, q, resized) := r in
  VDict [("path", VStr p); ("size", VFloat size); ("quality", VInt q);
         ("savings", VFloat savings); ("resized", VBool resized)].

End Results.

(** What one call of [optimize_image] leaves behind: the value it returns,
    the paths that exist afterwards, and the collaborator calls it made. *)
Record job `{E : Externals} := {
  job_result : value;
  job_files : gset string;
  job_calls : list event
}.

(** ** Names in a folder *)

(** [name] ends with [ext]: what the pattern [*ext] matches. *)
Fixpoint ends_with (ext name : string) : bool :=
  String.eqb name ext ||
  match name with
  | EmptyString => false
  | String _ rest => ends_with ext rest
  end.

(** The last dot of a name: what is before it, and the rest from it on. *)
Fixpoint last_dot (name : string) : option (string * string) :=
  match name with
  | EmptyString => None
  | String c rest =>
      match last_dot rest with
      | Some (before, from_dot) => Some (String c before, from_dot)
      | None => if Ascii.eqb c "." then Some (EmptyString, name) else None
      end
  end.

(** [PurePath.stem] and [PurePath.suffix] of a name: the suffix starts at
    the last dot when that dot is neither the first nor the last character
    of the name. *)
Definition py_split (name : string) : string * string :=
  match last_dot name with
  | Some (before, from_dot) =>
      if String.eqb before "" || String.eqb from_dot "." then (name, "")
      else (before, from_dot)
  | None => (name, "")
  end.

(** [folder_path / name] *)
Definition path_in (folder_path name : string) : pypath :=
  {| parent := folder_path; stem := fst (py_split name);
     suffix := snd (py_split name) |}.

(** What a path is on disk: nothing, something that is not a directory, or
    a directory with the names of its entries in the order [glob] meets
    them. *)
Inductive on_disk :=
| Missing
| NotADirectory
| Directory (names : list string).

(** [folder_path.glob("*" + ext)]: the entries whose name ends with [ext].
    The match is case-sensitive, as [pathlib] has it on the platforms the
    scripts name (Linux and macOS). *)
Definition glob (folder_path : string) (names : list string) (ext : string)
  : list pypath :=
  map (path_in folder_path) (List.filter (ends_with ext) names).

(** The truth value of a Python value ([if result:]). *)
Definition truthy (v : value) : bool :=
  match v with
  | VNone => false
  | VBool b => b
  | VInt n => negb (n =? 0)
  | VFloat q => negb (Qeq_bool q 0)
  | VStr s => negb (String.eqb s "")
  | VDict d => match d with [] => false | _ :: _ => true end
  end.

(** ** [text_color_formatting/colors.py]: ANSI styles *)

Module Colors.

(** The escape character, [\033]. *)
Definition ESC : string := String (ascii_of_nat 27) "".

Definition RESET : string := ESC +:+ "[0m".

Definition _FG_BLACK : string := ESC +:+ "[30m".
Definition _FG_RED : string := ESC +:+ "[31m".
Definition _FG_GREEN : string := ESC +:+ "[32m".
Definition _FG_YELLOW : string := ESC +:+ "[33m".
Definition _FG_BLUE : string := ESC +:+ "[34m".
Definition _FG_MAGENTA : string := ESC +:+ "[35m".
Definition _FG_CYAN : string := ESC +:+ "[36m".
Definition _FG_WHITE : string := ESC +:+ "[37m".
Definition _FG_DEFAULT : string := ESC +:+ "[39m".

Definition _BG_BLACK : string := ESC +:+ "[40m".
Definition _BG_RED : string := ESC +:+ "[41m".
Definition _BG_GREEN : string := ESC +:+ "[42m".
Definition _BG_YELLOW : string := ESC +:+ "[43m".
Definition _BG_BLUE : string := ESC +:+ "[44m".
Definition _BG_MAGENTA : string := ESC +:+ "[45m".
Definition _BG_CYAN : string := ESC +:+ "[46m".
Definition _BG_WHITE : string := ESC +:+ "[47m".
Definition _BG_DEFAULT : string := ESC +:+ "[49m".

Definition _BOLD : string := ESC +:+ "[1m".
Definition _DIM : string := ESC +:+ "[2m".
Definition _ITALIC : string := ESC +:+ "[3m".
Definition _UNDERLINE : string := ESC +:+ "[4m".
Definition _BLINK : string := ESC +:+ "[5m".
Definition _REVERSE : string := ESC +:+ "[7m".
Definition _HIDDEN : string := ESC +:+ "[8m".
Definition _STRIKETHROUGH : string := ESC +:+ "[9m".

Definition fg_black (text : string) : string := _FG_BLACK +:+ text +:+ RESET.
Definition fg_red (text : string) : string := _FG_RED +:+ text +:+ RESET.
Definition fg_green (text : string) : string := _FG_GREEN +:+ text +:+ RESET.
Definition fg_yellow (text : string) : string :=
  _FG_YELLOW +:+ text +:+ RESET.
Definition fg_blue (text : string) : string := _FG_BLUE +:+ text +:+ RESET.
Definition fg_magenta (text : string) : string :=
  _FG_MAGENTA +:+ text +:+ RESET.
Definition fg_cyan (text : string) : string := _FG_CYAN +:+ text +:+ RESET.
Definition fg_white (text : string) : string := _FG_WHITE +:+ text +:+ RESET.

Definition bg_black (text : string) : string := _BG_BLACK +:+ text +:+ RESET.
Definition bg_red (text : string) : string := _BG_RED +:+ text +:+ RESET.
Definition bg_green (text : string) : string := _BG_GREEN +:+ text +:+ RESET.
Definition bg_yellow (text : string) : string :=
  _BG_YELLOW +:+ text +:+ RESET.
Definition bg_blue (text : string) : string := _BG_BLUE +:+ text +:+ RESET.
Definition bg_magenta (text : string) : string :=
  _BG_MAGENTA +:+ text +:+ RESET.
Definition bg_cyan (text : string) : string := _BG_CYAN +:+ text +:+ RESET.
Definition bg_white (text : string) : string := _BG_WHITE +:+ text +:+ RESET.

Definition bold (text : string) : string := _BOLD +:+ text +:+ RESET.
Definition dim (text : string) : string := _DIM +:+ text +:+ RESET.
Definition italic (text : string) : string := _ITALIC +:+ text +:+ RESET.
Definition underline (text : string) : string :=
  _UNDERLINE +:+ text +:+ RESET.
Definition blink (text : string) : string := _BLINK +:+ text +:+ RESET.
Definition reverse (text : string) : string := _REVERSE +:+ text +:+ RESET.
Definition hidden (text : string) : string := _HIDDEN +:+ text +:+ RESET.
Definition strikethrough (text : string) : string :=
  _STRIKETHROUGH +:+ text +:+ RESET.

(** [combine] with its positional arguments [args] and its keyword
    argument [text]: the styles joined, then the text. *)
Definition combine (args : list string) (text : string) : string :=
  let styles := String.concat "" args in
  styles +:+ text +:+ RESET.

(** [fg_rgb(r, g, b, text)] and [bg_rgb(r, g, b, text)]; the values are
    written as they are, whatever their range. *)
Definition fg_rgb (r g b : Z) (text : string) : string :=
  ESC +:+ "[38;2;" +:+ str_of_int r +:+ ";" +:+ str_of_int g +:+ ";"
  +:+ str_of_int b +:+ "m" +:+ text +:+ RESET.

Definition bg_rgb (r g b : Z) (text : string) : string :=
  ESC +:+ "[48;2;" +:+ str_of_int r +:+ ";" +:+ str_of_int g +:+ ";"
  +:+ str_of_int b +:+ "m" +:+ text +:+ RESET.

(** [custom(code, text)] *)
Definition custom (code : Z) (text : string) : string :=
  ESC +:+ "[" +:+ str_of_int code +:+ "m" +:+ text +:+ RESET.

(** The styles that have a method of their own: the number of the code,
    the constant and the method. *)
Definition named : list (Z * string * (string -> string)) :=
  [(30, _FG_BLACK, fg_black); (31, _FG_RED, fg_red);
   (32, _FG_GREEN, fg_green); (33, _FG_YELLOW, fg_yellow);
   (34, _FG_BLUE, fg_blue); (35, _FG_MAGENTA, fg_magenta);
   (36, _FG_CYAN, fg_cyan); (37, _FG_WHITE, fg_white);
   (40, _BG_BLACK, bg_black); (41, _BG_RED, bg_red);
   (42, _BG_GREEN, bg_green); (43, _BG_YELLOW, bg_yellow);
   (44, _BG_BLUE, bg_blue); (45, _BG_MAGENTA, bg_magenta);
   (46, _BG_CYAN, bg_cyan); (47, _BG_WHITE, bg_white);
   (1, _BOLD, bold); (2, _DIM, dim); (3, _ITALIC, italic);
   (4, _UNDERLINE, underline); (5, _BLINK, blink); (7, _REVERSE, reverse);
   (8, _HIDDEN, hidden); (9, _STRIKETHROUGH, strikethrough)].

End Colors.

(** ** [optimizer.py]: one image, both formats *)

Module Optimizer.
Section Script.
Context `{E : Externals}.

(** [get_output_path(input_path, format_name)]: the output path, and the
    paths that exist once [mkdir(exist_ok=True)] has run (it is taken to
    succeed). *)
Definition get_output_path (input_path : pypath) (format_name : string)
    (fs : gset string) : string * gset string :=
  let output_dir := parent input_path +:+ "/" +:+ "optimized" in
  let fs' := {[output_dir]} ∪ fs in
  let base_name := stem input_path in
  (output_dir +:+ "/" +:+ base_name +:+ "." +:+ lower format_name, fs').

(** Lines 207-210: the initial quality, computed once for both formats. *)
Definition initial_quality_for (original_size : Q) : Z :=
  let initial_quality := INITIAL_QUALITY module_constants in
  if Qgtb original_size 500
  then Z.max (MIN_QUALITY module_constants)
             (INITIAL_QUALITY module_constants - 10)
  else initial_quality.

(** [optimize_image(input_path)]; the [except] branch returns [None]. *)
Definition optimize_image (input_path : pypath) (fs : gset string)
  : option job :=
  let c := module_constants in
  match image_open (path_str input_path) with
  | Raise e => Some {| job_result := VNone; job_files := fs; job_calls := [] |}
  | Ok img =>
      let exif_data := preserve_metadata img in
      let original_size := size_kb (getsize (path_str input_path)) in
      let initial_quality := initial_quality_for original_size in
      let '(webp_path, fs1) := get_output_path input_path "webp" fs in
      match optimize_to_target_size c webp_path "WEBP" initial_quality
              img fs1 with
      | None => None
      | Some (Failed e s) =>
          Some {| job_result := VNone; job_files := files s;
                  job_calls := calls s |}
      | Some (Done sw) =>
          let '(avif_path, fs2) :=
            get_output_path input_path "avif" (files sw) in
          match optimize_to_target_size c avif_path "AVIF" initial_quality
                  img fs2 with
          | None => None
          | Some (Failed e s) =>
              Some {| job_result := VNone; job_files := files s;
                      job_calls := calls sw ++ calls s |}
          | Some (Done sa) =>
              let after (v : value) :=
                {| job_result := v; job_files := files sa;
                   job_calls := calls sw ++ calls sa |} in
              match savings_of original_size (current_size sw),
                    savings_of original_size (current_size sa) with
              | Ok webp_savings, Ok avif_savings =>
                  Some (after (VDict [
                    ("original",
                     original_entry (path_str input_path) original_size img);
                    ("webp",
                     format_entry webp_path (returned sw) webp_savings);
                    ("avif",
                     format_entry avif_path (returned sa) avif_savings)]))
              | _, _ => Some (after VNone)
              end
          end
      end
  end.

(** [main()], given [args.image] and whether it is a file: the exit status
    and the job run, if any.  What [main] prints changes neither. *)
Definition main (image : pypath) (isfile : bool) (fs : gset string)
  : option (Z * option job) :=
  if negb isfile then Some (1, None)
  else
    let supported_formats := [".jpg"; ".jpeg"; ".png"] in
    let ext := lower (suffix image) in
    if negb (existsb (String.eqb ext) supported_formats) then Some (1, None)
    else
      match optimize_image image fs with
      | None => None
      | Some j => Some (if truthy (job_result j) then 0 else 1, Some j)
      end.

End Script.
End Optimizer.

(** ** [multiple_images_optimizer.py]: a folder of images *)

Module Batch.

(** The module's globals: the constants, [MAX_WORKERS], and the two answers
    read from the terminal when the module is loaded. *)
Record globals := {
  consts : constants;
  MAX_WORKERS : Z;
  USER_INPUT_DIR_NAME : string;
  format_decision : Z
}.

(** The counters of [process_batch]'s [results] dictionary ([start_time] and
    [total_time] are clock readings and are left out). *)
Record batch_results := {
  total : Z;
  successful : Z;
  skipped : Z;
  failed : Z;
  details : list value;
  total_savings_webp : Q;
  total_savings_avif : Q
}.

Section Script.
Context `{E : Externals}.
Variable g : globals.

(** [get_output_path(input_path, format_name)], with the folder the user
    named; [mkdir(exist_ok=True)] is taken to succeed. *)
Definition get_output_path (input_path : pypath) (format_name : string)
    (fs : gset string) : string * gset string :=
  let output_dir := parent input_path +:+ "/" +:+ USER_INPUT_DIR_NAME g in
  let fs' := {[output_dir]} ∪ fs in
  let base_name := stem input_path in
  (output_dir +:+ "/" +:+ base_name +:+ "." +:+ lower format_name, fs').

Definition get_optimal_workers (format_name : string) : Z :=
  if String.eqb (upper format_name) "AVIF"
  then Z.max 1 (Z.min 2 (MAX_WORKERS g / 2))
  else MAX_WORKERS g.

Definition get_initial_quality (format_name : string) (original_size : Q)
  : Z :=
  let c := consts g in
  if String.eqb (upper format_name) "AVIF" then
    if Qgtb original_size 500
    then Z.max (MIN_QUALITY c) (INITIAL_QUALITY c - 20)
    else Z.max (MIN_QUALITY c) (INITIAL_QUALITY c - 15)
  else if Qgtb original_size 500
  then Z.max (MIN_QUALITY c) (INITIAL_QUALITY c - 10)
  else INITIAL_QUALITY c.

(** The dictionaries of the [skipped] and [error] returns. *)
Definition skipped_result (input_path : string) : value :=
  VDict [("status", VStr "skipped"); ("path", VStr input_path);
         ("reason", VStr "Already optimized")].

Definition error_result (input_path : string) (e : string) : value :=
  VDict [("status", VStr "error"); ("path", VStr input_path);
         ("error", VStr e)].

(** [optimize_image(input_path)]: every exception raised inside is caught
    and returned as an error dictionary.  The [match format_decision] on
    the literals 1, 2, 3 compares by equality. *)
Definition optimize_image (input_path : pypath) (fs : gset string)
  : option job :=
  let c := consts g in
  let path := path_str input_path in
  let '(webp_path, fs1) := get_output_path input_path "webp" fs in
  let '(avif_path, fs2) := get_output_path input_path "avif" fs1 in
  if bool_decide (webp_path ∈ fs2) && bool_decide (avif_path ∈ fs2) then
    Some {| job_result := skipped_result path; job_files := fs2;
            job_calls := [] |}
  else
    match image_open path with
    | Raise e =>
        Some {| job_result := error_result path e; job_files := fs2;
                job_calls := [] |}
    | Ok img =>
        let exif_data := preserve_metadata img in
        let original_size := size_kb (getsize path) in
        let original := original_entry path original_size img in
        if format_decision g =? 1 then
            let initial_quality := get_initial_quality "WEBP" original_size in
            match optimize_to_target_size c webp_path "WEBP" initial_quality
                    img fs2 with
            | None => None
            | Some (Failed e s) =>
                Some {| job_result := error_result path e;
                        job_files := files s; job_calls := calls s |}
            | Some (Done sw) =>
                let after (v : value) :=
                  {| job_result := v; job_files := files sw;
                     job_calls := calls sw |} in
                match savings_of original_size (current_size sw) with
                | Raise e => Some (after (error_result path e))
                | Ok webp_savings =>
                    Some (after (VDict [
                      ("status", VStr "success");
                      ("original", original);
                      ("webp",
                       format_entry webp_path (returned sw) webp_savings)]))
                end
            end
        else if format_decision g =? 2 then
            let initial_quality := get_initial_quality "AVIF" original_size in
            match optimize_to_target_size c avif_path "AVIF" initial_quality
                    img fs2 with
            | None => None
            | Some (Failed e s) =>
                Some {| job_result := error_result path e;
                        job_files := files s; job_calls := calls s |}
            | Some (Done sa) =>
                let after (v : value) :=
                  {| job_result := v; job_files := files sa;
                     job_calls := calls sa |} in
                match savings_of original_size (current_size sa) with
                | Raise e => Some (after (error_result path e))
                | Ok avif_savings =>
                    Some (after (VDict [
                      ("status", VStr "success");
                      ("original", original);
                      ("avif",
                       format_entry avif_path (returned sa) avif_savings)]))
                end
            end
        else if format_decision g =? 3 then
            let webp_initial_quality :=
              get_initial_quality "WEBP" original_size in
            let avif_initial_quality :=
              get_initial_quality "AVIF" original_size in
            match optimize_to_target_size c webp_path "WEBP"
                    webp_initial_quality img fs2 with
            | None => None
            | Some (Failed e s) =>
                Some {| job_result := error_result path e;
                        job_files := files s; job_calls := calls s |}
            | Some (Done sw) =>
                match optimize_to_target_size c avif_path "AVIF"
                        avif_initial_quality img (files sw) with
                | None => None
                | Some (Failed e s) =>
                    Some {| job_result := error_result path e;
                            job_files := files s;
                            job_calls := calls sw ++ calls s |}
                | Some (Done sa) =>
                    let after (v : value) :=
                      {| job_result := v; job_files := files sa;
                         job_calls := calls sw ++ calls sa |} in
                    match savings_of original_size (current_size sw) with
                    | Raise e => Some (after (error_result path e))
                    | Ok webp_savings =>
                        match savings_of original_size (current_size sa) with
                        | Raise e => Some (after (error_result path e))
                        | Ok avif_savings =>
                            Some (after (VDict [
                              ("status", VStr "success");
                              ("original", original);
                              ("webp",
                               format_entry webp_path (returned sw)
                                 webp_savings);
                              ("avif",
                               format_entry avif_path (returned sa)
                                 avif_savings)]))
                        end
                    end
                end
            end
        else
            Some {| job_result := error_result path "Invalid format decision";
                    job_files := fs2; job_calls := [] |}
    end.

(** [result["status"]] *)
Definition status_of (result : value) : string :=
  match result with
  | VDict d =>
      match dict_get "status" d with
      | Some (VStr s) => s
      | _ => ""
      end
  | _ => ""
  end.

(** [result.get(key, {}).get("savings", 0)] *)
Definition get_savings (key : string) (result : value) : Q :=
  match result with
  | VDict d =>
      match dict_get key d with
      | Some (VDict d') =>
          match dict_get "savings" d' with
          | Some (VFloat q) => q
          | Some (VInt n) => inject_Z n
          | _ => 0
          end
      | _ => 0
      end
  | _ => 0
  end.

Definition add_successful (webp avif : Q) (r : batch_results) : batch_results :=
  {| total := total r; successful := successful r + 1; skipped := skipped r;
     failed := failed r; details := details r;
     total_savings_webp := (total_savings_webp r + webp)%Q;
     total_savings_avif := (total_savings_avif r + avif)%Q |}.

Definition add_skipped (r : batch_results) : batch_results :=
  {| total := total r; successful := successful r; skipped := skipped r + 1;
     failed := failed r; details := details r;
     total_savings_webp := total_savings_webp r;
     total_savings_avif := total_savings_avif r |}.

Definition add_failed (r : batch_results) : batch_results :=
  {| total := total r; successful := successful r; skipped := skipped r;
     failed := failed r + 1; details := details r;
     total_savings_webp := total_savings_webp r;
     total_savings_avif := total_savings_avif r |}.

Definition add_detail (result : value) (r : batch_results) : batch_results :=
  {| total := total r; successful := successful r; skipped := skipped r;
     failed := failed r; details := details r ++ [result];
     total_savings_webp := total_savings_webp r;
     total_savings_avif := total_savings_avif r |}.

(** The body of [for future in as_completed(...)].  [optimize_image] catches
    every exception itself, so [future.result()] does not raise and the
    loop's own [except] branch is never taken. *)
Definition record_result (result : value) (r : batch_results)
  : batch_results :=
  let r1 := add_detail result r in
  if String.eqb (status_of result) "success" then
    if format_decision g =? 1 then
      add_successful (get_savings "webp" result) 0 r1
    else if format_decision g =? 2 then
      add_successful 0 (get_savings "avif" result) r1
    else
      add_successful (get_savings "webp" result) (get_savings "avif" result)
        r1
  else if String.eqb (status_of result) "skipped" then add_skipped r1
  else add_failed r1.

(** The jobs of the pool, run one after the other in submission order. *)
Fixpoint run_jobs (image_files : list pypath) (r : batch_results)
    (fs : gset string) (cs : list event)
  : option (batch_results * gset string * list event) :=
  match image_files with
  | [] => Some (r, fs, cs)
  | img_path :: rest =>
      match optimize_image img_path fs with
      | None => None
      | Some j =>
          run_jobs rest (record_result (job_result j) r) (job_files j)
            (cs ++ job_calls j)
      end
  end.

(** What [process_batch] returns and does: the [results] dictionary, the
    averages it adds to it, the size of the thread pool it created, and the
    effects of its jobs. *)
Record batch_run := {
  results : batch_results;
  average_savings : Q * Q;
  pool_max_workers : Z;
  files_after : gset string;
  calls_made : list event
}.

Definition process_batch (image_files : list pypath) (max_workers : Z)
    (fs : gset string) : option batch_run :=
  let results0 :=
    {| total := Z.of_nat (length image_files); successful := 0;
       skipped := 0; failed := 0; details := [];
       total_savings_webp := 0; total_savings_avif := 0 |} in
  let optimal_workers :=
    get_optimal_workers (if format_decision g =? 2 then "AVIF" else "WEBP") in
  match run_jobs image_files results0 fs [] with
  | None => None
  | Some (r, fs', cs) =>
      Some {| results := r;
              average_savings :=
                if successful r >? 0
                then ((total_savings_webp r / inject_Z (successful r))%Q,
                      (total_savings_avif r / inject_Z (successful r))%Q)
                else (0%Q, 0%Q);
              pool_max_workers := optimal_workers;
              files_after := fs';
              calls_made := cs |}
  end.

(** [main()], given the images [find_images_in_folder] found and the
    [--workers] argument: the exit status and the batch it ran, if any.
    Printing the summary and writing the report change neither. *)
Definition main (image_files : list pypath) (workers : Z) (fs : gset string)
  : option (Z * option batch_run) :=
  match image_files with
  | [] => Some (1, None)
  | _ :: _ =>
      match process_batch image_files workers fs with
      | None => None
      | Some run =>
          Some (if failed (results run) =? 0 then 0 else 1, Some run)
      end
  end.

(** [find_images_in_folder(folder_path)], given what the path is on disk:
    for each supported extension, the entries matching it in lower case and
    then those matching it in upper case. *)
Definition find_images_in_folder (folder_path : string) (d : on_disk)
  : list pypath :=
  let supported_formats := [".jpg"; ".jpeg"; ".png"] in
  match d with
  | Missing => []
  | NotADirectory => []
  | Directory names =>
      flat_map (fun format_ext =>
                  glob folder_path names format_ext
                  ++ glob folder_path names (upper format_ext))
        supported_formats
  end.

(** [main()] from its first line: the images are those found in
    [args.folder]. *)
Definition main_in_folder (folder : string) (d : on_disk) (workers : Z)
    (fs : gset string) : option (Z * option batch_run) :=
  main (find_images_in_folder folder d) workers fs.

End Script.

(** How a run of the script ends: the [int(...)] at module level raised, or
    [sys.exit(main())] was reached. *)
Inductive script_end `{E : Externals} :=
| Crashed
| Exited (code : Z) (run : option batch_run).

(** The globals once the module is loaded with the folder name [name] and
    the selection [n]. *)
Definition loaded (name : string) (n : Z) : globals :=
  {| consts := module_constants; MAX_WORKERS := 4;
     USER_INPUT_DIR_NAME := name; format_decision := n |}.

(** The script from its first line: the two answers typed at the prompts,
    then [main]. *)
Definition script `{E : Externals} (dir_answer format_answer : string)
    (image_files : list pypath) (workers : Z) (fs : gset string)
  : option script_end :=
  let name := py_strip dir_answer in
  match py_int (py_strip format_answer) with
  | None => Some Crashed
  | Some n =>
      match main (loaded name n) image_files workers fs with
      | None => None
      | Some (code, run) => Some (Exited code run)
      end
  end.

End Batch.

(** ** Vocabulary for traces and results *)

Section Traces.
Context `{E : Externals}.

Definition final_state (o : outcome) : ostate :=
  match o with
  | Done s => s
  | Failed _ s => s
  end.

Definition img_size (img : image Pixels) : Z * Z := (width img, height img).

Definition is_save_at (q : Z) (ev : event) : Prop :=
  exists p f img, ev = ESave p f img q.

(** Every resize of the trace comes immediately after a save at quality
    [q]. *)
Definition resize_right_after_save_at (q : Z) (l : list event) : Prop :=
  forall pre old new post,
    l = pre ++ EResize old new :: post ->
    exists pre' ev, pre = pre' ++ [ev] /\ is_save_at q ev.

(** The last call of the trace is a save of [img] at quality [q]. *)
Definition ends_with_save (img : image Pixels) (q : Z) (l : list event)
  : Prop :=
  exists pre p f, l = pre ++ [ESave p f img q].

Definition ends_with_a_save (l : list event) : Prop :=
  exists pre p f img q, l = pre ++ [ESave p f img q].

(** A save uses a quality between [lo] and [hi]. *)
Definition save_quality_in (lo hi : Z) (ev : event) : Prop :=
  match ev with
  | ESave _ _ _ q => lo <= q <= hi
  | EResize _ _ => True
  end.

(** The qualities of the saves of a trace, in order. *)
Definition save_qualities (l : list event) : list Z :=
  flat_map (fun ev => match ev with
                      | ESave _ _ _ q => [q]
                      | EResize _ _ => []
                      end) l.

(** The format and quality of the saves of a trace, in order. *)
Definition save_log (l : list event) : list (string * Z) :=
  flat_map (fun ev => match ev with
                      | ESave _ f _ q => [(f, q)]
                      | EResize _ _ => []
                      end) l.

(** The quality of the first save of a trace made in format [f]. *)
Fixpoint first_save_quality (f : string) (l : list event) : option Z :=
  match l with
  | [] => None
  | ESave _ f' _ q :: l' =>
      if String.eqb f f' then Some q else first_save_quality f l'
  | EResize _ _ :: l' => first_save_quality f l'
  end.

(** A call of a run that writes [p] in format [f]. *)
Definition call_of (p f : string) (ev : event) : Prop :=
  match ev with
  | ESave p' f' _ _ => p' = p /\ f' = f
  | EResize _ _ => True
  end.

(** The resizes of a trace, in order, each as (old size, new size). *)
Definition resizes (l : list event) : list ((Z * Z) * (Z * Z)) :=
  flat_map (fun ev => match ev with
                      | EResize old new => [(old, new)]
                      | ESave _ _ _ _ => []
                      end) l.

(** Each resize starts from the size the previous one produced (the first
    one from [from]) and produces [scale] of it. *)
Fixpoint resize_chain (scale : Z * Z -> Z * Z) (from : Z * Z)
    (l : list ((Z * Z) * (Z * Z))) : Prop :=
  match l with
  | [] => True
  | (old, new) :: l' =>
      old = from /\ new = scale old /\ resize_chain scale new l'
  end.

(** The size a chain of resizes ends at. *)
Fixpoint chain_end (from : Z * Z) (l : list ((Z * Z) * (Z * Z))) : Z * Z :=
  match l with
  | [] => from
  | (_, new) :: l' => chain_end new l'
  end.

(** [int(w * factor)], [int(h * factor)] *)
Definition scale_by (factor : Q) (size : Z * Z) : Z * Z :=
  (py_int_of_float (inject_Z (fst size) * factor),
   py_int_of_float (inject_Z (snd size) * factor)).

(** Both dimensions times 0.8, truncated to integers. *)
Definition scale_08 (size : Z * Z) : Z * Z :=
  (Z.quot (fst size * 8) 10, Z.quot (snd size * 8) 10).

(** Whatever follows a resize in the trace starts with a save at quality
    [q] of an image of the new size. *)
Definition resize_then_save_at (q : Z) (l : list event) : Prop :=
  forall pre old new post,
    l = pre ++ EResize old new :: post ->
    post = [] \/
    exists p f img post',
      post = ESave p f img q :: post' /\ img_size img = new.

End Traces.

Arguments resizes : simpl never.
Arguments img_size : simpl never.

(** ** Measures and invariants of the two loops *)

Section Invariants.
Context `{E : Externals}.
Variable c : constants.
Variable initial_quality : Z.
Variable from : Z * Z.

(** What the downward loop still has to do: resizes left, each followed by
    a walk of the quality down to the floor. *)
Definition down_measure (s : ostate) : nat :=
  (Z.to_nat (max_resize_attempts - resize_count s)
   * S (Z.to_nat (initial_quality - MIN_QUALITY c))
   + Z.to_nat (quality s - MIN_QUALITY c))%nat.

Definition up_measure (s : ostate) : nat := Z.to_nat (98 - quality s).

(** Downward loop, for the floor property: the last call saved the current
    image at the current quality, which is not below the floor. *)
Definition floor_inv (s : ostate) : Prop :=
  resize_right_after_save_at (MIN_QUALITY c) (calls s) /\
  ends_with_save (current_img s) (quality s) (calls s) /\
  MIN_QUALITY c <= quality s.

Definition floor_post (o : outcome) : Prop :=
  resize_right_after_save_at (MIN_QUALITY c) (calls (final_state o)).

(** Both loops, for the quality range. *)
Definition range_inv (s : ostate) : Prop :=
  Forall (save_quality_in 30 98) (calls s) /\ 30 <= quality s <= 98.

Definition range_post (o : outcome) : Prop :=
  Forall (save_quality_in 30 98) (calls (final_state o)) /\
  match o with
  | Done s => 30 <= snd (fst (returned s)) <= 98
  | Failed _ _ => True
  end.

(** Both loops, for the resizes. *)
Definition chain_ok (l : list event) : Prop :=
  (length (resizes l) <= 5)%nat /\
  resize_chain (scale_by (RESIZE_FACTOR c)) from (resizes l) /\
  resize_then_save_at initial_quality l.

Definition chain_inv (s : ostate) : Prop :=
  chain_ok (calls s) /\
  Z.of_nat (length (resizes (calls s))) = resize_count s /\
  chain_end from (resizes (calls s)) = img_size (current_img s) /\
  ends_with_a_save (calls s).

Definition chain_up (s : ostate) : Prop :=
  chain_ok (calls s) /\ ends_with_a_save (calls s).

Definition chain_post (o : outcome) : Prop :=
  chain_ok (calls (final_state o)) /\
  match o with
  | Done s => ends_with_a_save (calls s)
  | Failed _ _ => True
  end.

End Invariants.

(** ** Sample collaborators and inputs *)

(** The bytes a sample raster encodes to, by its compressibility profile:
    50 KB whatever the quality; growing with area and quality; 10 KB up to
    quality 95 and 150 KB above; 95 KB whatever the quality. *)
Definition sample_bytes (profile : nat) (q w h : Z) : Z :=
  match profile with
  | 0%nat => 51200
  | 1%nat => w * h * q / 100
  | 2%nat => if q <=? 95 then 10240 else 153600
  | _ => 97280
  end.

Definition sample_image (w h : Z) (exif : option (list (Z * value)))
    (profile : nat) : image nat :=
  {| width := w; height := h; mode := "RGB"; exif_raw := exif;
     pixels := profile |}.

Definition sample_exif : list (Z * value) :=
  [(271, VStr "Canon"); (40000, VInt 1)].

Definition sample_open (path : string) : res (image nat) :=
  if String.eqb path "photos/a.png" then Ok (sample_image 100 100 None 0)
  else if String.eqb path "photos/big.png"
  then Ok (sample_image 1000 1000 None 1)
  else if String.eqb path "photos/flat.png"
  then Ok (sample_image 100 100 None 2)
  else if String.eqb path "photos/shot.jpg"
  then Ok (sample_image 100 100 (Some sample_exif) 0)
  else Raise "cannot identify image file".

Definition sample_int (s : string) : option Z :=
  if String.eqb s "1" then Some 1
  else if String.eqb s "2" then Some 2
  else if String.eqb s "3" then Some 3
  else if String.eqb s "4" then Some 4
  else None.

#[export] Instance sample : Externals := {|
  Pixels := nat;
  lanczos p w h :=
    if (w <? 1) || (h <? 1) then Raise "height and width must be > 0"
    else Ok p;
  to_rgb p := p;
  encode f q img := Ok (sample_bytes (pixels img) q (width img) (height img));
  image_open := sample_open;
  getsize path :=
    if String.eqb path "photos/big.png" then 1024000 else 102400;
  TAGS tag := if tag =? 271 then Some "Make" else None;
  py_strip s := s;
  py_int := sample_int
|}.

Definition a_png : pypath :=
  {| parent := "photos"; stem := "a"; suffix := ".png" |}.

Definition shot_jpg : pypath :=
  {| parent := "photos"; stem := "shot"; suffix := ".jpg" |}.

(** ** Reading off what a run did

    The observable part of a run, a job or a batch, without the table of
    existing paths: evaluations are stated and computed on these. *)

(** Of an optimizer run that returned: the returned triple, the qualities
    saved at, and the resizes. *)
Definition run_summary `{E : Externals} (o : option outcome)
  : option (Q * Z * bool * list Z * list ((Z * Z) * (Z * Z))) :=
  match o with
  | Some (Done s) =>
      Some (returned s, save_qualities (calls s), resizes (calls s))
  | _ => None
  end.

(** Of a job: the value returned and the saves made. *)
Definition job_summary `{E : Externals} (j : option job)
  : option (value * list (string * Z)) :=
  match j with
  | Some j => Some (job_result j, save_log (job_calls j))
  | None => None
  end.

(** The counters of a batch: total, successful, skipped, failed. *)
Definition counters (r : Batch.batch_results) : Z * Z * Z * Z :=
  (Batch.total r, Batch.successful r, Batch.skipped r, Batch.failed r).

(** Of a batch: its counters, the status of each job in order, and the
    qualities saved at. *)
Definition batch_summary `{E : Externals} (r : option Batch.batch_run)
  : option (Z * Z * Z * Z * list string * list Z) :=
  match r with
  | Some r =>
      Some (counters (Batch.results r),
            map Batch.status_of (Batch.details (Batch.results r)),
            save_qualities (Batch.calls_made r))
  | None => None
  end.

(** Of a batch run twice, the second time on what the first left behind:
    whether [p] exists after the first run, and the second run. *)
Definition rerun_summary `{E : Externals} (g : Batch.globals)
    (image_files : list pypath) (workers : Z) (fs : gset string)
    (p : string) : option (bool * (Z * Z * Z * Z * list string * list Z)) :=
  match Batch.process_batch g image_files workers fs with
  | Some r1 =>
      match batch_summary
              (Batch.process_batch g image_files workers
                 (Batch.files_after r1)) with
      | Some b2 => Some (bool_decide (p ∈ Batch.files_after r1), b2)
      | None => None
      end
  | None => None
  end.

(** Of the script: the exit status and the batch's counters and details. *)
Definition script_summary `{E : Externals} (r : option Batch.script_end)
  : option (Z * Batch.batch_results) :=
  match r with
  | Some (Batch.Exited code (Some run)) => Some (code, Batch.results run)
  | _ => None
  end.

(** ** What a run, a job and a batch leave behind *)

Section Effects.
Context `{E : Externals}.
Variables output_path format_name : string.
Variable initial_quality : Z.
Variable fs : gset string.

(** The returned triple describes the file on disk: the last call saved
    the current image at the current quality, the size recorded is the size
    of that encode, and the output file exists. *)
Definition described (s : ostate) : Prop :=
  exists pre bytes,
    calls s
    = pre ++ [ESave output_path format_name (current_img s) (quality s)] /\
    encode format_name (quality s) (current_img s) = Ok bytes /\
    current_size s = size_kb bytes /\
    output_path ∈ files s.

(** Of the paths that existed before, none is gone, and the only path that
    may have been added is the output. *)
Definition framed (s : ostate) : Prop :=
  fs ⊆ files s /\ files s ⊆ {[output_path]} ∪ fs.

Definition save_quality_at_most (hi : Z) (ev : event) : Prop :=
  match ev with
  | ESave _ _ _ q => q <= hi
  | EResize _ _ => True
  end.

(** Downward loop, for the [resize_needed] flag: it is set exactly when the
    trace has a resize, and the quality has not been above
    [initial_quality]. *)
Definition flag_inv (s : ostate) : Prop :=
  (resize_needed s = true <-> resizes (calls s) <> []) /\
  Forall (save_quality_at_most initial_quality) (calls s) /\
  quality s <= initial_quality.

Definition flag_post (o : outcome) : Prop :=
  match o with
  | Done s =>
      (snd (returned s) = true <-> resizes (calls s) <> []) /\
      (snd (returned s) = true ->
       Forall (save_quality_at_most initial_quality) (calls s) /\
       snd (fst (returned s)) <= initial_quality)
  | Failed _ _ => True
  end.

(** The size recorded is that of the current image encoded at the current
    quality. *)
Definition size_is_current (s : ostate) : Prop :=
  exists bytes,
    encode format_name (quality s) (current_img s) = Ok bytes /\
    current_size s = size_kb bytes.

(** The last two encodes were made at qualities 98 and 93. *)
Definition ends_98_93 (l : list event) : Prop :=
  exists pre, save_qualities l = pre ++ [98; 93].

Definition budget_inv (s : ostate) : Prop :=
  size_is_current s /\
  Z.of_nat (length (resizes (calls s))) = resize_count s /\
  resize_count s <= 5.

(** When the size returned can be above 100 KB: after five resizes with the
    quality at the floor, or after the upward phase's revert from 98 to
    93. *)
Definition over_budget_only_if (s : ostate) : Prop :=
  (fst (fst (returned s)) <= 100)%Q \/
  (length (resizes (calls s)) = 5%nat /\ snd (fst (returned s)) <= 30) \/
  ends_98_93 (calls s).

Definition budget_post (o : outcome) : Prop :=
  match o with
  | Done s => over_budget_only_if s
  | Failed _ _ => True
  end.

(** Steps of 5 from [initial_quality] down to 30. *)
Definition walk_down : Z := (initial_quality - 26) / 5.

(** The number of encodes of a trace. *)
Definition encodes (l : list event) : Z :=
  Z.of_nat (length (save_qualities l)).

Definition encodes_down (s : ostate) : Prop :=
  30 <= quality s <= initial_quality /\
  0 <= resize_count s <= 5 /\
  (resize_needed s = false -> resize_count s = 0) /\
  encodes (calls s) + (5 - resize_count s) * (1 + walk_down)
  + (quality s - 26) / 5
  <= 6 * (1 + walk_down).

Definition encodes_up (s : ostate) : Prop :=
  30 <= quality s <= 98 /\
  encodes (calls s) + (102 - quality s) / 5 + 1 <= walk_down + 16.

(** Six walks down (one per image size), or one walk down and the walk up
    with its revert. *)
Definition encodes_bound : Z :=
  Z.max (6 * (1 + walk_down)) (walk_down + 16).

Definition encodes_post (o : outcome) : Prop :=
  encodes (calls (final_state o)) <= encodes_bound.

End Effects.

Arguments encodes : simpl never.

(** The output folder and the outputs of a batch job. *)
Definition output_dir (g : Batch.globals) (p : pypath) : string :=
  parent p +:+ "/" +:+ Batch.USER_INPUT_DIR_NAME g.

Definition output_of `{E : Externals} (g : Batch.globals) (p : pypath)
    (format_name : string) : string :=
  fst (Batch.get_output_path g p format_name ∅).

Arguments output_dir : simpl never.
Arguments output_of : simpl never.

(** A call of the job of [p]: an encode of WEBP to its WebP output or of
    AVIF to its AVIF output, or a resize. *)
Definition writes_only `{E : Externals} (g : Batch.globals) (p : pypath)
    (ev : event) : Prop :=
  call_of (output_of g p "webp") "WEBP" ev \/
  call_of (output_of g p "avif") "AVIF" ev.

(** What a job leaves in the folder, by its status. *)
Definition job_effects `{E : Externals} (g : Batch.globals) (p : pypath)
    (fs : gset string) (j : job) : Prop :=
  let dir := output_dir g p in
  let webp := output_of g p "webp" in
  let avif := output_of g p "avif" in
  let status := Batch.status_of (job_result j) in
  fs ⊆ job_files j /\
  dir ∈ job_files j /\
  job_files j ⊆ {[dir]} ∪ {[webp]} ∪ {[avif]} ∪ fs /\
  (status = "skipped" <-> webp ∈ fs /\ avif ∈ fs) /\
  (status = "skipped" -> job_calls j = [] /\ job_files j = {[dir]} ∪ fs) /\
  (status = "success" ->
   (Batch.format_decision g = 1 /\ webp ∈ job_files j /\
    job_files j ⊆ {[dir]} ∪ {[webp]} ∪ fs) \/
   (Batch.format_decision g = 2 /\ avif ∈ job_files j /\
    job_files j ⊆ {[dir]} ∪ {[avif]} ∪ fs) \/
   (Batch.format_decision g = 3 /\ webp ∈ job_files j /\
    avif ∈ job_files j)).

(** The number of results of a list whose status is [st]. *)
Definition count_status (st : string) (l : list value) : Z :=
  Z.of_nat
    (length (List.filter (fun v => String.eqb (Batch.status_of v) st) l)).

Definition known_status (v : value) : Prop :=
  Batch.status_of v = "success" \/ Batch.status_of v = "skipped" \/
  Batch.status_of v = "error".

(** ** Folders and the single-image script *)

(** The six spellings of an extension the batch script looks for. *)
Definition spellings : list string :=
  [".jpg"; ".JPG"; ".jpeg"; ".JPEG"; ".png"; ".PNG"].

(** A string without a dot. *)
Fixpoint no_dot (s : string) : bool :=
  match s with
  | EmptyString => true
  | String c rest => negb (Ascii.eqb c ".") && no_dot rest
  end.

(** The outputs of the single-image script. *)
Definition single_output_of `{E : Externals} (p : pypath)
    (format_name : string) : string :=
  fst (Optimizer.get_output_path p format_name ∅).

Arguments single_output_of : simpl never.

(** ** EXIF *)

(** The value of the last item of a raw EXIF mapping whose tag is named
    [name]. *)
Fixpoint last_named `{E : Externals} (name : string)
    (items : list (Z * value)) : option value :=
  match items with
  | [] => None
  | (tag, v) :: rest =>
      match last_named name rest with
      | Some v' => Some v'
      | None =>
          match TAGS tag with
          | Some n => if String.eqb name n then Some v else None
          | None => None
          end
      end
  end.

(** One turn of the loop of [preserve_metadata]. *)
Definition exif_step `{E : Externals} (exif_data : dict)
    (item : Z * value) : dict :=
  let '(tag, v) := item in
  match TAGS tag with
  | Some name => dict_set name v exif_data
  | None => exif_data
  end.

(** ** What a terminal shows *)

(** The text a terminal shows of a string: the string without its escape
    sequences, each running from an escape character to the next [m].
    [in_sequence] tells whether the string starts inside one. *)
Fixpoint visible (in_sequence : bool) (s : string) : string :=
  match s with
  | EmptyString => EmptyString
  | String c rest =>
      if in_sequence then visible (negb (Ascii.eqb c "m")) rest
      else if Ascii.eqb c (ascii_of_nat 27) then visible true rest
      else String c (visible false rest)
  end.

(** Whether a string ends inside an escape sequence. *)
Fixpoint ends_in_sequence (in_sequence : bool) (s : string) : bool :=
  match s with
  | EmptyString => in_sequence
  | String c rest =>
      if in_sequence then ends_in_sequence (negb (Ascii.eqb c "m")) rest
      else ends_in_sequence (Ascii.eqb c (ascii_of_nat 27)) rest
  end.

(** A style: one or more complete escape sequences and nothing else. *)
Definition is_style (s : string) : Prop :=
  visible false s = "" /\ ends_in_sequence false s = false.

(** A string without an escape character. *)
Fixpoint plain (s : string) : bool :=
  match s with
  | EmptyString => true
  | String c rest => negb (Ascii.eqb c (ascii_of_nat 27)) && plain rest
  end.

(** A string without the letter [m]. *)
Fixpoint no_m (s : string) : bool :=
  match s with
  | EmptyString => true
  | String c rest => negb (Ascii.eqb c "m") && no_m rest
  end.

(** ** The image that is encoded *)

(** An encode of an image of mode [m]. *)
Definition saved_mode `{E : Externals} (m : string) (ev : event) : Prop :=
  match ev with
  | ESave _ _ img _ => mode img = m
  | EResize _ _ => True
  end.

Section Encoded.
Context `{E : Externals}.
Variable c : constants.
Variable m : string.
Variable from : Z * Z.

(** Both loops, for the image that is encoded: its mode does not change,
    and its size is the first size scaled once per resize. *)
Definition encoded_inv (s : ostate) : Prop :=
  mode (current_img s) = m /\
  Forall (saved_mode m) (calls s) /\
  img_size (current_img s)
  = Nat.iter (length (resizes (calls s))) (scale_by (RESIZE_FACTOR c)) from.

Definition encoded_post (o : outcome) : Prop :=
  Forall (saved_mode m) (calls (final_state o)) /\
  match o with
  | Done s =>
      img_size (current_img s)
      = Nat.iter (length (resizes (calls s))) (scale_by (RESIZE_FACTOR c))
          from
  | Failed _ _ => True
  end.

End Encoded.

(** ** A second sample encoder *)

(** An encoder whose output is not monotone in the quality: 150 KB at the
    qualities 93 and 98, 10 KB at every other. *)
Definition spiky : Externals := {|
  Pixels := unit;
  lanczos p w h := Ok p;
  to_rgb p := p;
  encode f q img := Ok (if (q =? 93) || (q =? 98) then 153600 else 10240);
  image_open path := Raise "cannot identify image file";
  getsize path := 102400;
  TAGS tag := None;
  py_strip s := s;
  py_int s := None
|}.

(** ** Runs and jobs apart from the table of paths *)









(** ** Proof automation *)

(** Case analysis on one evaluation of a loop body. *)
Ltac step_cases :=
  repeat match goal with
    | |- context [if ?b then _ else _] => destruct b eqn:?
    | |- context [match encode ?f ?q ?i with _ => _ end] =>
        destruct (encode f q i) eqn:?
    | |- context [match resize ?i ?w ?h with _ => _ end] =>
        destruct (resize i w h) eqn:?
    end; cbn in *.

(** Case analysis on a job: its tests, its optimizer runs (each of which
    ends, by the lemma [returns]) and its savings computations. *)
Ltac job_cases returns :=
  repeat match goal with
    | |- context [if ?b then _ else _] => destruct b eqn:?
    | |- context [match image_open ?p with _ => _ end] =>
        destruct (image_open p) eqn:?
    | |- context [optimize_to_target_size ?c ?p ?f ?q ?i ?fs] =>
        let o := fresh "o" in
        let Ho := fresh "Ho" in
        destruct (returns c p f q i fs) as [o Ho];
        rewrite Ho; destruct o
    | |- context [match savings_of ?a ?b with _ => _ end] =>
        destruct (savings_of a b) eqn:?
    end.

(** Case analysis on a job whose image opened, keeping of each optimizer
    run what the lemma [first_save] says of the quality it starts at. *)
Ltac seed_cases returns first_save :=
  repeat match goal with
    | |- context [if ?b then _ else _] => destruct b eqn:?
    | |- context [optimize_to_target_size ?c ?p ?f ?q ?i ?fs] =>
        let o := fresh "o" in
        let Ho := fresh "Ho" in
        destruct (returns c p f q i fs) as [o Ho];
        destruct (first_save c p f q i fs o Ho) as [? ?];
        rewrite Ho; clear Ho; destruct o
    | |- context [match savings_of ?a ?b with _ => _ end] =>
        destruct (savings_of a b) as [?|?]
    end.

(** Closing the goals of the file invariant after a step. *)
Ltac described_step :=
  try (split; [| split; set_solver]);
  try (split; set_solver);
  try (eexists _, _; split; [reflexivity|];
       split; [eassumption|]; split; [reflexivity | set_solver]).

(** Case analysis on the number of resizes made, between 0 and 5. *)
Ltac count_resizes s :=
  let H := fresh "Hrc" in
  assert (resize_count s = 0 \/ resize_count s = 1 \/ resize_count s = 2
          \/ resize_count s = 3 \/ resize_count s = 4
          \/ resize_count s = 5) as H by lia;
  destruct H as [H|[H|[H|[H|[H|H]]]]]; rewrite H in *.

(** Case analysis on a job, keeping of each optimizer run what the lemma
    [facts] says of its files and calls. *)
Ltac run_cases returns facts :=
  repeat match goal with
    | |- context [if ?b then _ else _] => destruct b eqn:?
    | |- context [match image_open ?p with _ => _ end] =>
        destruct (image_open p) as [?|?]
    | |- context [optimize_to_target_size ?c ?p ?f ?q ?i ?fs] =>
        let o := fresh "o" in
        let Ho := fresh "Ho" in
        destruct (returns c p f q i fs) as [o Ho];
        destruct (facts c p f q i fs o Ho) as (? & ? & ? & ?);
        rewrite Ho; clear Ho; destruct o
    | |- context [match savings_of ?a ?b with _ => _ end] =>
        destruct (savings_of a b) as [?|?]
    end.

(** From the files of a job's runs to the files of the job, by the lemmas
    for a WEBP run, an AVIF run, and one after the other. *)
Ltac frames for_webp for_avif for_both dir w a fs :=
  cbn [final_state] in *;
  repeat match goal with
    | H : (_ =? _) = false |- _ => clear H
    | H : (_ =? _) = true |- _ => apply Z.eqb_eq in H
    | H1 : {[dir]} ∪ ({[dir]} ∪ fs) ⊆ files ?s,
      H2 : files ?s ⊆ {[w]} ∪ _,
      H3 : files ?s ⊆ files ?s',
      H4 : files ?s' ⊆ {[a]} ∪ files ?s |- _ =>
        pose proof (for_both dir w a fs _ _ H1 H2 H3 H4) as (? & ? & ? & ?);
        clear H4
    | H1 : {[dir]} ∪ ({[dir]} ∪ fs) ⊆ files ?s,
      H2 : files ?s ⊆ {[w]} ∪ _ |- _ =>
        pose proof (for_webp dir w a fs _ H1 H2) as (? & ? & ? & ?);
        clear H2
    | H1 : {[dir]} ∪ ({[dir]} ∪ fs) ⊆ files ?s,
      H2 : files ?s ⊆ {[a]} ∪ _ |- _ =>
        pose proof (for_avif dir w a fs _ H1 H2) as (? & ? & ? & ?);
        clear H2
    end.



(** * Properties *)

(** ** Loops on fuel *)

Section Loops.
Context `{E : Externals}.

Lemma loop_S (body : ostate -> step) (fuel : nat) (s : ostate) :
  loop body (S fuel) s =
  match body s with
  | Continue s' => loop body fuel s'
  | Break s' => Some (Done s')
  | Raised e s' => Some (Failed e s')
  end.
Proof. reflexivity. Qed.

(** A loop whose body decreases a measure ends within that many turns. *)
Lemma loop_enough (body : ostate -> step) (mu : ostate -> nat) :
  (forall s s', body s = Continue s' -> (mu s' < mu s)%nat) ->
  forall fuel s, (mu s < fuel)%nat -> exists o, loop body fuel s = Some o.
Proof.
  intros Hdec fuel. induction fuel as [|fuel IH]; intros s Hlt; [lia|].
  rewrite loop_S. destruct (body s) as [s'| s' | e s'] eqn:Hb; eauto.
  apply IH. specialize (Hdec _ _ Hb). lia.
Qed.

(** What an invariant of the body gives when the loop ends. *)
Lemma loop_invariant (body : ostate -> step) (I : ostate -> Prop)
    (P : outcome -> Prop) :
  (forall s, I s ->
     match body s with
     | Continue s' => I s'
     | Break s' => P (Done s')
     | Raised e s' => P (Failed e s')
     end) ->
  forall fuel s o, I s -> loop body fuel s = Some o -> P o.
Proof.
  intros Hstep fuel.
  induction fuel as [|fuel IH]; intros s o Hs Hrun; [discriminate|].
  rewrite loop_S in Hrun. specialize (Hstep s Hs).
  destruct (body s) as [s'| s' | e s']; [eauto | | ]; congruence.
Qed.

End Loops.

Arguments loop : simpl never.

(** ** Lists of calls *)

Section Calls.
Context `{E : Externals}.

Lemma snoc_split {A} (l pre post : list A) (x y : A) :
  l ++ [x] = pre ++ y :: post ->
  (post = [] /\ l = pre /\ x = y) \/
  (exists post', post = post' ++ [x] /\ l = pre ++ y :: post').
Proof.
  destruct post as [|z post' _] using rev_ind; intros H.
  - left. apply app_inj_tail in H as [-> ->]. auto.
  - right. exists post'. rewrite app_comm_cons, app_assoc in H.
    apply app_inj_tail in H as [-> ->]. auto.
Qed.

Lemma not_save_and_resize pre p f (img : image Pixels) q pre' old new :
  pre ++ [ESave p f img q] = pre' ++ [EResize old new] -> False.
Proof. intros H. apply app_inj_tail in H as [_ H]. discriminate. Qed.

Lemma ends_snoc_save l p f (img : image Pixels) q :
  ends_with_a_save (l ++ [ESave p f img q]).
Proof. now exists l, p, f, img, q. Qed.

Lemma resize_right_nil q : resize_right_after_save_at q [].
Proof. intros [|? ?] ? ? ? H; discriminate. Qed.

Lemma resize_right_save q l p f img q' :
  resize_right_after_save_at q l ->
  resize_right_after_save_at q (l ++ [ESave p f img q']).
Proof.
  intros Hl pre old new post H.
  apply snoc_split in H as [(_ & _ & H) | (post' & _ & ->)]; [discriminate|].
  eapply Hl; eauto.
Qed.

Lemma resize_right_resize q l img old new :
  resize_right_after_save_at q l ->
  ends_with_save img q l ->
  resize_right_after_save_at q (l ++ [EResize old new]).
Proof.
  intros Hl (pre0 & p & f & ->) pre old' new' post H.
  apply snoc_split in H as [(_ & <- & _) | (post' & _ & H)].
  - eexists _, _. split; [reflexivity|]. repeat eexists.
  - eapply Hl; eauto.
Qed.

Lemma range_snoc l p f img q :
  Forall (save_quality_in 30 98) l -> 30 <= q <= 98 ->
  Forall (save_quality_in 30 98) (l ++ [ESave p f img q]).
Proof.
  intros Hl Hq. apply Forall_app. split; [exact Hl|].
  repeat constructor; apply Hq.
Qed.

Lemma range_snoc_resize l old new :
  Forall (save_quality_in 30 98) l ->
  Forall (save_quality_in 30 98) (l ++ [EResize old new]).
Proof. intros Hl. apply Forall_app. split; [exact Hl|]. repeat constructor. Qed.

Lemma resizes_snoc_save l p f img q :
  resizes (l ++ [ESave p f img q]) = resizes l.
Proof. unfold resizes. rewrite flat_map_app. cbn. apply app_nil_r. Qed.

Lemma resizes_snoc_resize l old new :
  resizes (l ++ [EResize old new]) = resizes l ++ [(old, new)].
Proof. unfold resizes. rewrite flat_map_app. reflexivity. Qed.

Lemma chain_end_snoc from l old new : chain_end from (l ++ [(old, new)]) = new.
Proof.
  revert from. induction l as [|[o n] l IH]; intros from; cbn; auto.
Qed.

Lemma resize_chain_snoc scale from l :
  resize_chain scale from l ->
  resize_chain scale from
    (l ++ [(chain_end from l, scale (chain_end from l))]).
Proof.
  revert from. induction l as [|[o n] l IH]; intros from; cbn.
  - auto.
  - intros (-> & -> & Hl). auto.
Qed.

(** With the module's factor, [int(x * 0.8)] is [x * 8] quotient 10. *)
Lemma scale_by_08 size : scale_by (8 # 10) size = scale_08 size.
Proof. reflexivity. Qed.

Lemma resize_size img w h img' :
  resize img w h = Ok img' -> img_size img' = (w, h).
Proof.
  unfold resize. destruct (lanczos _ _ _); [|discriminate].
  intros [= <-]. reflexivity.
Qed.

Lemma then_save_nil q : resize_then_save_at q [].
Proof. intros [|? ?] ? ? ? H; discriminate. Qed.

Lemma then_save_snoc_save q l p f img q' :
  resize_then_save_at q l ->
  (forall pre old new,
     l = pre ++ [EResize old new] -> q' = q /\ img_size img = new) ->
  resize_then_save_at q (l ++ [ESave p f img q']).
Proof.
  intros Hl Hlast pre old new post H.
  apply snoc_split in H as [(_ & _ & H) | (post' & -> & ->)]; [discriminate|].
  right.
  destruct (Hl pre old new post' eq_refl)
    as [-> | (p0 & f0 & i0 & post'' & -> & Hsz)].
  - destruct (Hlast pre old new eq_refl) as [-> Hsz].
    exists p, f, img, []. auto.
  - exists p0, f0, i0, (post'' ++ [ESave p f img q']). auto.
Qed.

Lemma then_save_snoc_resize q l old new :
  resize_then_save_at q l ->
  ends_with_a_save l ->
  resize_then_save_at q (l ++ [EResize old new]).
Proof.
  intros Hl (pre0 & p & f & img & q' & Heq) pre o n post H.
  apply snoc_split in H as [(-> & _ & _) | (post' & -> & Hl')]; [auto|].
  right.
  destruct (Hl pre o n post' Hl')
    as [-> | (p0 & f0 & i0 & post'' & -> & Hsz)].
  - rewrite Hl' in Heq. symmetry in Heq.
    now apply not_save_and_resize in Heq.
  - exists p0, f0, i0, (post'' ++ [EResize old new]). auto.
Qed.

Lemma first_save_other p f f' l :
  String.eqb f' f = false ->
  Forall (call_of p f) l -> first_save_quality f' l = None.
Proof.
  intros Hne. induction 1 as [|ev l Hev _ IH]; [reflexivity|].
  destruct ev as [p0 f0 i0 q0|old new]; cbn; [|exact IH].
  destruct Hev as [_ ->]. now rewrite Hne.
Qed.

Lemma first_save_app_none f l1 l2 :
  first_save_quality f l1 = None ->
  first_save_quality f (l1 ++ l2) = first_save_quality f l2.
Proof.
  induction l1 as [|ev l1 IH]; [reflexivity|].
  destruct ev as [p0 f0 i0 q0|old new]; cbn; [|exact IH].
  destruct (String.eqb f f0); [discriminate | exact IH].
Qed.

Lemma first_save_app_some f l1 l2 q :
  first_save_quality f l1 = Some q ->
  first_save_quality f (l1 ++ l2) = Some q.
Proof.
  induction l1 as [|ev l1 IH]; [discriminate|].
  destruct ev as [p0 f0 i0 q0|old new]; cbn; [|exact IH].
  destruct (String.eqb f f0); [auto | exact IH].
Qed.

Lemma Qgtb_false a b : (a <= b)%Q -> Qgtb a b = false.
Proof. intros H. unfold Qgtb. apply Qle_bool_iff in H. now rewrite H. Qed.

Lemma Qltb_false a b : (b <= a)%Q -> Qltb a b = false.
Proof. intros H. unfold Qltb. apply Qle_bool_iff in H. now rewrite H. Qed.

Lemma run_summary_done o r qs rs :
  run_summary o = Some (r, qs, rs) ->
  exists s,
    o = Some (Done s) /\ returned s = r /\
    save_qualities (calls s) = qs /\ resizes (calls s) = rs.
Proof.
  destruct o as [[s|e s]|]; try discriminate. intros [= <- <- <-]. eauto.
Qed.

Lemma job_summary_some j v qs :
  job_summary j = Some (v, qs) ->
  exists j', j = Some j' /\ job_result j' = v /\
             save_log (job_calls j') = qs.
Proof. destruct j as [j'|]; [|discriminate]. intros [= <- <-]. eauto. Qed.

Lemma batch_summary_some r n sts qs :
  batch_summary r = Some (n, sts, qs) ->
  exists run,
    r = Some run /\ counters (Batch.results run) = n /\
    map Batch.status_of (Batch.details (Batch.results run)) = sts /\
    save_qualities (Batch.calls_made run) = qs.
Proof. destruct r as [run|]; [|discriminate]. intros [= <- <- <-]. eauto. Qed.

Lemma rerun_summary_some g image_files workers fs p b n sts qs :
  rerun_summary g image_files workers fs p = Some (b, (n, sts, qs)) ->
  exists run1 run2,
    Batch.process_batch g image_files workers fs = Some run1 /\
    bool_decide (p ∈ Batch.files_after run1) = b /\
    Batch.process_batch g image_files workers (Batch.files_after run1)
    = Some run2 /\
    counters (Batch.results run2) = n /\
    map Batch.status_of (Batch.details (Batch.results run2)) = sts /\
    save_qualities (Batch.calls_made run2) = qs.
Proof.
  unfold rerun_summary.
  destruct (Batch.process_batch g image_files workers fs) as [r1|];
    [|discriminate].
  destruct (batch_summary _) as [[[n' sts'] qs']|] eqn:Hb; [|discriminate].
  intros [= <- <- <- <-].
  apply batch_summary_some in Hb as (run2 & H2 & <- & <- & <-).
  exists r1, run2. repeat split; auto.
Qed.

Lemma script_summary_some r code res :
  script_summary r = Some (code, res) ->
  exists run,
    r = Some (Batch.Exited code (Some run)) /\ Batch.results run = res.
Proof.
  destruct r as [[|code' [run|]]|]; try discriminate.
  intros [= <- <-]. eauto.
Qed.

End Calls.

(** ** The two phases of [optimize_to_target_size] *)

Section Phases.
Context `{E : Externals}.
Variable c : constants.
Variables output_path format_name : string.
Variable initial_quality : Z.

Lemma down_body_decreases s s' :
  down_body c output_path format_name initial_quality s = Continue s' ->
  (down_measure c initial_quality s' < down_measure c initial_quality s)%nat.
Proof.
  unfold down_body, save, down_measure, max_resize_attempts.
  destruct (Qgtb _ _); [|discriminate].
  destruct (quality s >? MIN_QUALITY c) eqn:Hq.
  - cbn. destruct (encode _ _ _); [|discriminate].
    intros [= <-]. cbn. destruct (Qgtb _ _); lia.
  - destruct (resize_count s >=? 5) eqn:Hr; [discriminate|].
    cbn. destruct (resize _ _ _); [|discriminate]. cbn.
    destruct (encode _ _ _); [|discriminate].
    intros [= <-]. cbn. nia.
Qed.

Lemma up_body_decreases s s' :
  up_body c output_path format_name s = Continue s' ->
  (up_measure s' < up_measure s)%nat.
Proof.
  unfold up_body, save, up_measure.
  destruct (Qltb _ _ && (quality s <? 98)) eqn:Ht; [|discriminate].
  apply andb_true_iff in Ht as [_ Hq]. apply Z.ltb_lt in Hq.
  cbn. destruct (quality s + 5 >? 98) eqn:Hc; cbn;
    (destruct (encode _ _ _); [|discriminate]); cbn;
    (destruct (Qgtb _ _); cbn;
       [destruct (encode _ _ _); discriminate | intros [= <-]; cbn; lia]).
Qed.

(** The downward loop ends: by its [while] test, its [break], or an
    exception. *)
Lemma down_loop_enough fuel s :
  (down_measure c initial_quality s < fuel)%nat ->
  exists o,
    loop (down_body c output_path format_name initial_quality) fuel s
    = Some o.
Proof.
  apply loop_enough with (mu := down_measure c initial_quality).
  apply down_body_decreases.
Qed.

(** So does the upward loop. *)
Lemma up_loop_enough s :
  exists o,
    loop (up_body c output_path format_name) (up_fuel (quality s)) s = Some o.
Proof.
  apply loop_enough with (mu := up_measure).
  - apply up_body_decreases.
  - unfold up_fuel, up_measure. lia.
Qed.

(** [optimize_to_target_size] always ends, by a return or an exception. *)
Lemma optimize_to_target_size_returns img fs :
  exists o,
    optimize_to_target_size c output_path format_name initial_quality img fs
    = Some o.
Proof.
  unfold optimize_to_target_size, save. cbn.
  destruct (encode _ _ _) as [bytes|e]; [|eauto].
  match goal with
  | |- context [loop _ ?fuel ?s] =>
      destruct (down_loop_enough fuel s) as [o Ho]
  end.
  - unfold down_measure, max_resize_attempts. cbn. lia.
  - rewrite Ho. destruct o as [s2|e s2]; [|eauto].
    destruct (Qltb _ _ && _); [apply up_loop_enough | eauto].
Qed.

(** Running the function from an invariant of each phase. *)
Lemma optimize_to_target_size_inv (I0 : ostate -> Prop) (Iup : ostate -> Prop)
    (P : outcome -> Prop) img fs o :
  match save output_path format_name
          (working_copy format_name img) initial_quality
          (start format_name initial_quality img fs) with
  | (s, Ok size) => I0 (set_current_size size s)
  | (s, Raise e) => P (Failed e s)
  end ->
  (forall s, I0 s ->
     match down_body c output_path format_name initial_quality s with
     | Continue s' => I0 s'
     | Break s' => Iup s'
     | Raised e s' => P (Failed e s')
     end) ->
  (forall s, Iup s ->
     match up_body c output_path format_name s with
     | Continue s' => Iup s'
     | Break s' => P (Done s')
     | Raised e s' => P (Failed e s')
     end) ->
  (forall s, Iup s -> P (Done s)) ->
  optimize_to_target_size c output_path format_name initial_quality img fs
  = Some o ->
  P o.
Proof.
  intros Hseed Hdown Hup Hdone. unfold optimize_to_target_size.
  cbn [start current_img quality].
  fold (start format_name initial_quality img fs).
  destruct (save _ _ _ _ _) as [s1 [size|e]].
  - destruct (loop _ _ _) as [o1|] eqn:Hl; [|discriminate].
    assert (match o1 with Done s => Iup s | Failed e s => P (Failed e s) end)
      as Ho1.
    { eapply (loop_invariant _ I0
               (fun o => match o with
                         | Done s => Iup s
                         | Failed e s => P (Failed e s)
                         end));
        [|exact Hseed|exact Hl].
      intros s Hs0. specialize (Hdown s Hs0).
      destruct (down_body _ _ _ _ _); auto. }
    destruct o1 as [s2|e s2]; [|intros [= <-]; auto].
    destruct (Qltb _ _ && _).
    + intros Hl2. eapply (loop_invariant _ Iup P); [|exact Ho1|exact Hl2].
      exact Hup.
    + intros [= <-]. auto.
  - intros [= <-]. auto.
Qed.

(** The calls a turn of either loop adds to the trace. *)
Lemma down_body_appends (P : list event -> Prop) s :
  (forall l img q, P l -> P (l ++ [ESave output_path format_name img q])) ->
  (forall l old new, P l -> P (l ++ [EResize old new])) ->
  P (calls s) ->
  match down_body c output_path format_name initial_quality s with
  | Continue s' | Break s' | Raised _ s' => P (calls s')
  end.
Proof.
  intros Hsave Hres Hs. unfold down_body, save. step_cases; auto.
Qed.

Lemma up_body_appends (P : list event -> Prop) s :
  (forall l img q, P l -> P (l ++ [ESave output_path format_name img q])) ->
  P (calls s) ->
  match up_body c output_path format_name s with
  | Continue s' | Break s' | Raised _ s' => P (calls s')
  end.
Proof.
  intros Hsave Hs. unfold up_body, save. step_cases; auto.
Qed.

(** A property of traces that holds of the first save and survives the
    calls a run can add holds of the whole trace. *)
Lemma trace_induction (P : list event -> Prop) img fs o :
  P [ESave output_path format_name (working_copy format_name img)
       initial_quality] ->
  (forall l img q, P l -> P (l ++ [ESave output_path format_name img q])) ->
  (forall l old new, P l -> P (l ++ [EResize old new])) ->
  optimize_to_target_size c output_path format_name initial_quality img fs
  = Some o ->
  P (calls (final_state o)).
Proof.
  intros Hone Hsave Hres.
  apply (optimize_to_target_size_inv (fun s => P (calls s))
           (fun s => P (calls s)) (fun o => P (calls (final_state o)))).
  - unfold save. step_cases; exact Hone.
  - intros s Hs.
    pose proof (down_body_appends P s Hsave Hres Hs) as H.
    destruct (down_body _ _ _ _ _); exact H.
  - intros s Hs.
    pose proof (up_body_appends P s Hsave Hs) as H.
    destruct (up_body _ _ _ _); exact H.
  - auto.
Qed.

(** A run's trace starts with the seed save, and all its saves write the
    run's own output in the run's own format. *)
Lemma trace_starts_with_seed img fs o :
  optimize_to_target_size c output_path format_name initial_quality img fs
  = Some o ->
  exists rest,
    calls (final_state o) =
    ESave output_path format_name (working_copy format_name img)
      initial_quality :: rest /\
    Forall (call_of output_path format_name) rest.
Proof.
  apply (trace_induction
           (fun l => exists rest,
                l = ESave output_path format_name
                      (working_copy format_name img) initial_quality :: rest /\
                Forall (call_of output_path format_name) rest)).
  - exists []. split; [reflexivity | constructor].
  - intros l i q (rest & -> & Hf). eexists. split; [reflexivity|].
    apply Forall_app. split; [exact Hf|]. repeat constructor.
  - intros l old new (rest & -> & Hf). eexists. split; [reflexivity|].
    apply Forall_app. split; [exact Hf|]. repeat constructor.
Qed.

Lemma first_save_of_run img fs o :
  optimize_to_target_size c output_path format_name initial_quality img fs
  = Some o ->
  first_save_quality format_name (calls (final_state o))
  = Some initial_quality /\
  forall f', String.eqb f' format_name = false ->
             first_save_quality f' (calls (final_state o)) = None.
Proof.
  intros Ho. apply trace_starts_with_seed in Ho as (rest & -> & Hall).
  split.
  - cbn. now rewrite String.eqb_refl.
  - intros f' Hne. cbn. rewrite Hne. eapply first_save_other; eauto.
Qed.

(** A seed encode that fits the ceiling and is not below the target minimum
    is returned as it is: neither loop runs. *)
Lemma seed_accepted img fs bytes :
  encode format_name initial_quality (working_copy format_name img)
  = Ok bytes ->
  (inject_Z (TARGET_MIN_SIZE_KB c) <= size_kb bytes)%Q ->
  (size_kb bytes <= inject_Z (MAX_SIZE_KB c))%Q ->
  exists s,
    optimize_to_target_size c output_path format_name initial_quality img fs
    = Some (Done s) /\
    returned s = (size_kb bytes, initial_quality, false) /\
    calls s = [ESave output_path format_name
                 (working_copy format_name img) initial_quality].
Proof.
  intros Henc Hlo Hhi. unfold optimize_to_target_size, save. cbn.
  rewrite Henc. unfold down_fuel. cbn [Nat.mul Nat.add]. rewrite loop_S.
  unfold down_body. cbn. rewrite (Qgtb_false _ _ Hhi). cbn.
  rewrite (Qltb_false _ _ Hlo). cbn. eexists. split; [reflexivity|].
  split; reflexivity.
Qed.

(** *** Resizing only at the quality floor *)

Lemma down_body_floor s :
  MIN_QUALITY c <= initial_quality ->
  floor_inv c s ->
  match down_body c output_path format_name initial_quality s with
  | Continue s' => floor_inv c s'
  | Break s' => floor_post c (Done s')
  | Raised e s' => floor_post c (Failed e s')
  end.
Proof.
  intros Hle (Hr & He & Hq). unfold down_body, save, floor_post, floor_inv.
  step_cases; auto using resize_right_save.
  all: try (split; [auto using resize_right_save
                   |split; [eexists _, _, _; reflexivity | lia]]).
  all: assert (quality s = MIN_QUALITY c) as Heq by lia; rewrite Heq in He.
  all: eauto using resize_right_save, resize_right_resize.
  all: split; [eauto using resize_right_save, resize_right_resize|].
  all: split; [eexists _, _, _; reflexivity | lia].
Qed.

Lemma floor_holds img fs o :
  MIN_QUALITY c <= initial_quality ->
  optimize_to_target_size c output_path format_name initial_quality img fs
  = Some o ->
  resize_right_after_save_at (MIN_QUALITY c) (calls (final_state o)).
Proof.
  intros Hle.
  apply (optimize_to_target_size_inv (floor_inv c)
           (fun s => resize_right_after_save_at (MIN_QUALITY c) (calls s))
           (floor_post c)).
  - unfold save, floor_inv, floor_post. step_cases.
    + split; [|split].
      * apply (resize_right_save _ []), resize_right_nil.
      * exists [], output_path, format_name. reflexivity.
      * exact Hle.
    + apply (resize_right_save _ []), resize_right_nil.
  - intros s Hs. apply (down_body_floor s Hle) in Hs.
    destruct (down_body _ _ _ _ _); auto.
  - intros s Hs.
    apply (up_body_appends
             (resize_right_after_save_at (MIN_QUALITY c)) s); auto.
    intros. now apply resize_right_save.
  - auto.
Qed.

End Phases.

(** *** Qualities between 30 and 98 *)

Section Range.
Context `{E : Externals}.
Variables output_path format_name : string.
Variable initial_quality : Z.
Hypothesis initial_in_range : 30 <= initial_quality <= 98.

Lemma down_body_range s :
  range_inv s ->
  match down_body module_constants output_path format_name initial_quality s
  with
  | Continue s' => range_inv s'
  | Break s' => range_inv s'
  | Raised e s' => range_post (Failed e s')
  end.
Proof.
  intros (Hf & Hq). unfold down_body, save, range_inv, range_post.
  step_cases; auto.
  all: repeat split; auto.
  all: repeat first [apply range_snoc | apply range_snoc_resize]; auto.
  all: lia.
Qed.

Lemma up_body_range s :
  range_inv s ->
  match up_body module_constants output_path format_name s with
  | Continue s' => range_inv s'
  | Break s' => range_post (Done s')
  | Raised e s' => range_post (Failed e s')
  end.
Proof.
  intros (Hf & Hq). unfold up_body, save, range_inv, range_post.
  step_cases; auto.
  all: repeat split; auto.
  all: repeat first [apply range_snoc | apply range_snoc_resize]; auto.
  all: lia.
Qed.

Lemma range_holds img fs o :
  optimize_to_target_size module_constants output_path format_name
    initial_quality img fs = Some o ->
  range_post o.
Proof.
  apply (optimize_to_target_size_inv module_constants output_path format_name
           initial_quality range_inv range_inv range_post).
  - unfold save, range_inv, range_post. step_cases.
    + split; [|exact initial_in_range].
      apply (range_snoc []); [constructor | exact initial_in_range].
    + split; [|exact I].
      apply (range_snoc []); [constructor | exact initial_in_range].
  - apply down_body_range.
  - apply up_body_range.
  - intros s (Hf & Hq). split; auto.
Qed.

End Range.

(** *** Resizes: how many, from what size, and what follows them *)

Section Chain.
Context `{E : Externals}.
Variable c : constants.
Variables output_path format_name : string.
Variable initial_quality : Z.
Variable from : Z * Z.

Lemma chain_ok_snoc_save l p f img q :
  chain_ok c initial_quality from l ->
  ends_with_a_save l ->
  chain_ok c initial_quality from (l ++ [ESave p f img q]).
Proof.
  intros (Hn & Hc & Ht) (pre0 & p0 & f0 & i0 & q0 & Heq).
  unfold chain_ok. rewrite resizes_snoc_save. repeat split; auto.
  apply then_save_snoc_save; [exact Ht|].
  intros pre old new Hl. rewrite Hl in Heq. symmetry in Heq.
  now apply not_save_and_resize in Heq.
Qed.

Lemma chain_step_save s p f q :
  chain_inv c initial_quality from s ->
  chain_inv c initial_quality from
    (set_quality q (log (ESave p f (current_img s) q) s)).
Proof.
  intros (Hok & Hn & He & Hs). unfold chain_inv. cbn.
  rewrite resizes_snoc_save.
  split; [now apply chain_ok_snoc_save|].
  split; [exact Hn|]. split; [exact He|]. apply ends_snoc_save.
Qed.

Lemma chain_step_resize s :
  chain_inv c initial_quality from s ->
  resize_count s < 5 ->
  chain_ok c initial_quality from
    (calls s ++ [EResize (img_size (current_img s))
                   (scale_by (RESIZE_FACTOR c) (img_size (current_img s)))]).
Proof.
  intros ((Hlen & Hc & Ht) & Hn & He & Hs) Hlt. unfold chain_ok.
  rewrite resizes_snoc_resize, length_app. cbn [length]. repeat split.
  - lia.
  - rewrite <- He. now apply resize_chain_snoc.
  - now apply then_save_snoc_resize.
Qed.

Lemma chain_step_resize_save s p f img' :
  chain_inv c initial_quality from s ->
  resize_count s < 5 ->
  img_size img' = scale_by (RESIZE_FACTOR c) (img_size (current_img s)) ->
  let l := (calls s ++ [EResize (img_size (current_img s))
                          (scale_by (RESIZE_FACTOR c)
                             (img_size (current_img s)))])
           ++ [ESave p f img' initial_quality] in
  chain_ok c initial_quality from l /\
  Z.of_nat (length (resizes l)) = resize_count s + 1 /\
  chain_end from (resizes l) = img_size img' /\
  ends_with_a_save l.
Proof.
  intros Hinv Hlt Hsz l. subst l.
  destruct (chain_step_resize s Hinv Hlt) as (Hlen & Hc & Ht).
  destruct Hinv as (_ & Hn & He & Hs).
  unfold chain_ok.
  rewrite resizes_snoc_save, resizes_snoc_resize, length_app, chain_end_snoc.
  rewrite resizes_snoc_resize, length_app in Hlen.
  rewrite resizes_snoc_resize in Hc.
  cbn [length] in *.
  split; [|split; [lia|split; [now rewrite Hsz|apply ends_snoc_save]]].
  split; [exact Hlen|]. split; [exact Hc|].
  apply then_save_snoc_save; [exact Ht|].
  intros pre old new Hl. apply app_inj_tail in Hl as [_ [= <- <-]].
  split; [reflexivity | exact Hsz].
Qed.

Lemma down_body_chain s :
  chain_inv c initial_quality from s ->
  match down_body c output_path format_name initial_quality s with
  | Continue s' => chain_inv c initial_quality from s'
  | Break s' => chain_up c initial_quality from s'
  | Raised e s' => chain_post c initial_quality from (Failed e s')
  end.
Proof.
  intros Hinv. unfold down_body, save, max_resize_attempts.
  step_cases.
  all: try match goal with
           | H : resize _ _ _ = Ok _ |- _ => apply resize_size in H
           end.
  all: try (destruct Hinv as (Hok & _ & _ & Hs); split; assumption).
  - apply (chain_step_save s output_path format_name _ Hinv).
  - split; [|exact I].
    apply (chain_step_save s output_path format_name _ Hinv).
  - apply (chain_step_save s output_path format_name _ Hinv).
  - split; [|exact I].
    apply (chain_step_save s output_path format_name _ Hinv).
  - apply (chain_step_resize_save s output_path format_name _ Hinv);
      [lia | assumption].
  - split; [|exact I].
    apply (chain_step_resize_save s output_path format_name _ Hinv);
      [lia | assumption].
  - split; [|exact I]. apply (chain_step_resize s Hinv). lia.
Qed.

Lemma up_body_chain s :
  chain_up c initial_quality from s ->
  match up_body c output_path format_name s with
  | Continue s' => chain_up c initial_quality from s'
  | Break s' => chain_post c initial_quality from (Done s')
  | Raised e s' => chain_post c initial_quality from (Failed e s')
  end.
Proof.
  intros Hup.
  pose proof (up_body_appends c output_path format_name
                (fun l => chain_ok c initial_quality from l
                          /\ ends_with_a_save l) s) as Hp.
  cbv beta in Hp. unfold chain_up, chain_post.
  destruct (up_body _ _ _ _); cbn [final_state]; (apply Hp in Hup; [|clear]).
  all: try (intros l img q [Hok Hs];
            split; [now apply chain_ok_snoc_save | apply ends_snoc_save]).
  - exact Hup.
  - exact Hup.
  - split; [apply Hup | exact I].
Qed.

Lemma chain_holds img fs o :
  from = img_size img ->
  optimize_to_target_size c output_path format_name initial_quality img fs
  = Some o ->
  chain_post c initial_quality from o.
Proof.
  intros Hfrom.
  apply (optimize_to_target_size_inv c output_path format_name
           initial_quality (chain_inv c initial_quality from)
           (chain_up c initial_quality from)
           (chain_post c initial_quality from)).
  - assert (resize_then_save_at initial_quality
              [ESave output_path format_name (working_copy format_name img)
                 initial_quality]) as Hone.
    { apply (then_save_snoc_save _ []); [apply then_save_nil|].
      intros [|? ?] ? ? H; discriminate. }
    unfold save, chain_inv, chain_post, chain_ok. step_cases.
    + unfold resizes. cbn. repeat split; try lia; try exact Hone.
      * rewrite Hfrom. unfold working_copy. now destruct (_ && _).
      * apply (ends_snoc_save []).
    + unfold resizes. cbn. repeat split; try lia; exact Hone.
  - apply down_body_chain.
  - apply up_body_chain.
  - intros s Hs. exact Hs.
Qed.

End Chain.

(** ** The optimizer's claims *)

(** The initial qualities the two scripts pass to the optimizer (60, 65, 70
    or 80) meet the preconditions used below. *)
Lemma callers_start_in_range `{E : Externals} (name : string) (n : Z)
    (format_name : string) (original_size : Q) :
  30 <= Batch.get_initial_quality (Batch.loaded name n) format_name
          original_size <= 98 /\
  30 <= Optimizer.initial_quality_for original_size <= 98.
Proof.
  unfold Batch.get_initial_quality, Optimizer.initial_quality_for. cbn.
  repeat match goal with
         | |- context [if ?b then _ else _] => destruct b
         end; lia.
Qed.

(** C3.  In every run of the optimizer started at a quality not below
    MIN_QUALITY = 30, a resize is attempted only immediately after an encode
    at quality 30: the quality is brought down to the floor before the first
    resize, and again (from [initial_quality]) before each further one. *)
Theorem resize_only_at_quality_floor `{E : Externals}
    (output_path format_name : string) (initial_quality : Z)
    (img : image Pixels) (fs : gset string) :
  30 <= initial_quality ->
  exists o,
    optimize_to_target_size module_constants output_path format_name
      initial_quality img fs = Some o /\
    resize_right_after_save_at 30 (calls (final_state o)).
Proof.
  intros Hle.
  destruct (optimize_to_target_size_returns module_constants output_path
              format_name initial_quality img fs) as [o Ho].
  exists o. split; [exact Ho|].
  exact (floor_holds module_constants output_path format_name
           initial_quality img fs o Hle Ho).
Qed.

Lemma resize_only_at_quality_floor_witness :
  30 <= 80 /\
  exists o,
    optimize_to_target_size module_constants "photos/out/big.webp" "WEBP"
      80 (sample_image 1000 1000 None 1) ∅ = Some o /\
    resize_right_after_save_at 30 (calls (final_state o)).
Proof.
  split; [lia|].
  apply (resize_only_at_quality_floor (E := sample) "photos/out/big.webp"
           "WEBP" 80 (sample_image 1000 1000 None 1) ∅).
  lia.
Defined.

(** The witness run does resize, three times, each time from quality 30. *)
Example big_image_run :
  exists s,
    optimize_to_target_size module_constants "photos/out/big.webp" "WEBP"
      80 (sample_image 1000 1000 None 1) ∅ = Some (Done s) /\
    returned s = (size_kb 91750, 35, true) /\
    save_qualities (calls s)
    = [80; 70; 60; 50; 40; 30; 80; 70; 60; 50; 40; 30;
       80; 70; 60; 50; 45; 40; 35; 30; 80; 70; 65; 60; 55; 50; 45; 40; 35] /\
    resizes (calls s)
    = [((1000, 1000), (800, 800)); ((800, 800), (640, 640));
       ((640, 640), (512, 512))].
Proof. apply run_summary_done. vm_compute. reflexivity. Qed.

(** C4.  Called with an initial quality in [30, 98], the optimizer encodes
    at qualities in [30, 98] only (seed, downward steps, resets after a
    resize, upward steps and the revert), and the quality it returns is in
    [30, 98]. *)
Theorem quality_stays_in_range `{E : Externals}
    (output_path format_name : string) (initial_quality : Z)
    (img : image Pixels) (fs : gset string) :
  30 <= initial_quality <= 98 ->
  exists o,
    optimize_to_target_size module_constants output_path format_name
      initial_quality img fs = Some o /\
    Forall (save_quality_in 30 98) (calls (final_state o)) /\
    match o with
    | Done s => 30 <= snd (fst (returned s)) <= 98
    | Failed _ _ => True
    end.
Proof.
  intros Hr.
  destruct (optimize_to_target_size_returns module_constants output_path
              format_name initial_quality img fs) as [o Ho].
  exists o. split; [exact Ho|].
  exact (range_holds output_path format_name initial_quality Hr img fs o Ho).
Qed.

Lemma quality_stays_in_range_witness :
  30 <= 80 <= 98 /\
  exists o,
    optimize_to_target_size module_constants "photos/out/flat.webp" "WEBP"
      80 (sample_image 100 100 None 2) ∅ = Some o /\
    Forall (save_quality_in 30 98) (calls (final_state o)) /\
    match o with
    | Done s => 30 <= snd (fst (returned s)) <= 98
    | Failed _ _ => True
    end.
Proof.
  split; [lia|].
  apply (quality_stays_in_range (E := sample) "photos/out/flat.webp" "WEBP"
           80 (sample_image 100 100 None 2) ∅).
  lia.
Defined.

(** C6.  The upward phase does not always revert to the previous quality:
    from quality 95 the step is clamped to 98, and when that encode exceeds
    100 KB the code subtracts 5 from 98 and encodes and returns quality 93,
    a quality that was never tried, instead of going back to 95. *)
Theorem upward_revert_after_cap :
  exists s,
    optimize_to_target_size module_constants "photos/out/flat.webp" "WEBP"
      80 (sample_image 100 100 None 2) ∅ = Some (Done s) /\
    returned s = (size_kb 10240, 93, false) /\
    save_qualities (calls s) = [80; 85; 90; 95; 98; 93] /\
    resizes (calls s) = [].
Proof. apply run_summary_done. vm_compute. reflexivity. Qed.

(** C7.  In every run of the optimizer there are at most 5 resizes; the
    first starts from the image's size and each later one from the size the
    previous resize produced, the new size being the old one times 0.8 with
    both dimensions truncated; and whatever follows a resize starts with an
    encode of the resized image at [initial_quality], which a run that
    returns always reaches. *)
Theorem resizes_are_chained `{E : Externals}
    (output_path format_name : string) (initial_quality : Z)
    (img : image Pixels) (fs : gset string) :
  exists o,
    optimize_to_target_size module_constants output_path format_name
      initial_quality img fs = Some o /\
    (length (resizes (calls (final_state o))) <= 5)%nat /\
    resize_chain scale_08 (img_size img) (resizes (calls (final_state o))) /\
    resize_then_save_at initial_quality (calls (final_state o)) /\
    match o with
    | Done s => ends_with_a_save (calls s)
    | Failed _ _ => True
    end.
Proof.
  destruct (optimize_to_target_size_returns module_constants output_path
              format_name initial_quality img fs) as [o Ho].
  exists o. split; [exact Ho|].
  destruct (chain_holds module_constants output_path format_name
              initial_quality (img_size img) img fs o eq_refl Ho)
    as ((Hn & Hc & Ht) & Hd).
  auto.
Qed.

(** C10.  The optimizer never reads TARGET_MAX_SIZE_KB: with any other
    value of that constant it makes the same calls and returns the same
    result.  In particular a seed encode of more than 90 KB and at most
    100 KB is returned as it is, at the initial quality and without a
    resize. *)
Theorem target_max_is_never_read `{E : Externals} (c : constants) (v : Z)
    (output_path format_name : string) (initial_quality : Z)
    (img : image Pixels) (fs : gset string) :
  optimize_to_target_size (with_TARGET_MAX_SIZE_KB v c) output_path
    format_name initial_quality img fs
  = optimize_to_target_size c output_path format_name initial_quality img fs
  /\
  forall bytes,
    encode format_name initial_quality (working_copy format_name img)
    = Ok bytes ->
    (90 < size_kb bytes)%Q ->
    (size_kb bytes <= 100)%Q ->
    exists s,
      optimize_to_target_size (with_TARGET_MAX_SIZE_KB v module_constants)
        output_path format_name initial_quality img fs = Some (Done s) /\
      returned s = (size_kb bytes, initial_quality, false) /\
      calls s = [ESave output_path format_name
                   (working_copy format_name img) initial_quality].
Proof.
  split; [reflexivity|].
  intros bytes Henc Hlo Hhi.
  apply (seed_accepted (with_TARGET_MAX_SIZE_KB v module_constants)
           output_path format_name initial_quality img fs bytes Henc).
  - cbn. apply Qlt_le_weak. eapply Qle_lt_trans; [|exact Hlo].
    unfold Qle. cbn. lia.
  - exact Hhi.
Qed.

Lemma target_max_is_never_read_witness :
  exists s,
    optimize_to_target_size (with_TARGET_MAX_SIZE_KB 50 module_constants)
      "photos/out/p.webp" "WEBP" 80 (sample_image 100 100 None 3) ∅
    = Some (Done s) /\
    returned s = (size_kb 97280, 80, false) /\
    calls s = [ESave "photos/out/p.webp" "WEBP"
                 (working_copy "WEBP" (sample_image 100 100 None 3)) 80].
Proof.
  apply (proj2 (target_max_is_never_read (E := sample) module_constants 50
                  "photos/out/p.webp" "WEBP" 80
                  (sample_image 100 100 None 3) ∅) 97280).
  - reflexivity.
  - vm_compute. reflexivity.
  - vm_compute. discriminate.
Defined.

(** ** Jobs and batches *)

Section Outputs.
Context `{E : Externals}.
Variable g : Batch.globals.
Implicit Types fs F : gset string.

Lemma append_longer s t : t <> "" -> s +:+ t <> s.
Proof.
  intros Ht. induction s as [|a s IH]; cbn; [exact Ht|].
  intros [= H]. auto.
Qed.

(** An output is not the output folder. *)
Lemma output_is_not_dir p f : output_of g p f <> output_dir g p.
Proof.
  unfold output_of, output_dir, Batch.get_output_path. cbn [fst].
  apply append_longer. discriminate.
Qed.

Lemma get_output_path_eq p f fs :
  Batch.get_output_path g p f fs
  = (output_of g p f, {[output_dir g p]} ∪ fs).
Proof. reflexivity. Qed.

(** Creating the output folder does not make an output exist. *)
Lemma not_both_in (dir w a : string) fs :
  w <> dir -> a <> dir ->
  (w ∈ {[dir]} ∪ ({[dir]} ∪ fs) /\ a ∈ {[dir]} ∪ ({[dir]} ∪ fs)
   <-> w ∈ fs /\ a ∈ fs).
Proof. set_solver. Qed.


End Outputs.

Section Jobs.
Context `{E : Externals}.
Variable g : Batch.globals.

(** A job always ends with a result dictionary. *)
Lemma batch_optimize_image_returns input_path fs :
  exists j, Batch.optimize_image g input_path fs = Some j.
Proof.
  unfold Batch.optimize_image, Batch.get_output_path. cbv zeta.
  job_cases optimize_to_target_size_returns; eauto.
Qed.

(** So does a batch, whatever the selection and the requested workers; the
    pool it creates has the size [get_optimal_workers] gives. *)
Lemma run_jobs_returns image_files :
  forall r fs cs, exists out, Batch.run_jobs g image_files r fs cs = Some out.
Proof.
  induction image_files as [|p rest IH]; intros r fs cs;
    cbn [Batch.run_jobs]; [eauto|].
  destruct (batch_optimize_image_returns p fs) as [j ->]. apply IH.
Qed.

Lemma process_batch_returns image_files max_workers fs :
  exists run,
    Batch.process_batch g image_files max_workers fs = Some run /\
    Batch.pool_max_workers run
    = Batch.get_optimal_workers g
        (if Batch.format_decision g =? 2 then "AVIF" else "WEBP").
Proof.
  unfold Batch.process_batch.
  match goal with
  | |- context [Batch.run_jobs g ?l ?r ?f ?c] =>
      destruct (run_jobs_returns l r f c) as [[[r' fs'] cs'] ->]
  end.
  eexists. split; reflexivity.
Qed.

(** A job's dictionary has one of the three statuses: what is raised inside
    the job comes back as an [error] dictionary. *)
Lemma job_status_is_known input_path fs :
  exists j,
    Batch.optimize_image g input_path fs = Some j /\
    (Batch.status_of (job_result j) = "success" \/
     Batch.status_of (job_result j) = "skipped" \/
     Batch.status_of (job_result j) = "error").
Proof.
  unfold Batch.optimize_image, Batch.get_output_path. cbv zeta.
  job_cases optimize_to_target_size_returns;
    eexists; (split; [reflexivity|]); cbn; auto.
Qed.

(** Recording a result adds one detail and one to exactly one counter. *)
Lemma record_result_counts v r :
  Batch.total (Batch.record_result g v r) = Batch.total r /\
  Batch.successful (Batch.record_result g v r)
  + Batch.skipped (Batch.record_result g v r)
  + Batch.failed (Batch.record_result g v r)
  = Batch.successful r + Batch.skipped r + Batch.failed r + 1 /\
  Batch.details (Batch.record_result g v r) = Batch.details r ++ [v].
Proof.
  unfold Batch.record_result.
  repeat match goal with
         | |- context [if ?b then _ else _] => destruct b
         end; cbn; repeat split; lia.
Qed.

Lemma run_jobs_counts image_files :
  forall r fs cs,
  exists r' fs' cs',
    Batch.run_jobs g image_files r fs cs = Some (r', fs', cs') /\
    Batch.total r' = Batch.total r /\
    Batch.successful r' + Batch.skipped r' + Batch.failed r'
    = Batch.successful r + Batch.skipped r + Batch.failed r
      + Z.of_nat (length image_files) /\
    length (Batch.details r')
    = (length (Batch.details r) + length image_files)%nat.
Proof.
  induction image_files as [|p rest IH]; intros r fs cs;
    cbn [Batch.run_jobs].
  - exists r, fs, cs. cbn. repeat split; lia.
  - destruct (batch_optimize_image_returns p fs) as [j ->].
    destruct (record_result_counts (job_result j) r) as (Ht & Hsum & Hd).
    destruct (IH (Batch.record_result g (job_result j) r) (job_files j)
                (cs ++ job_calls j))
      as (r' & fs' & cs' & Hrun & Ht' & Hsum' & Hlen).
    exists r', fs', cs'. split; [exact Hrun|].
    rewrite Hd, length_app in Hlen. cbn [length] in *.
    repeat split; lia.
Qed.

(** The qualities at which the encodes of a batch job start. *)
Lemma batch_job_first_saves p fs :
  exists j,
    Batch.optimize_image g p fs = Some j /\
    (output_of g p "webp" ∈ fs /\ output_of g p "avif" ∈ fs ->
     job_calls j = []) /\
    (~ (output_of g p "webp" ∈ fs /\ output_of g p "avif" ∈ fs) ->
     match image_open (path_str p) with
     | Raise _ => job_calls j = []
     | Ok _ =>
         let size := size_kb (getsize (path_str p)) in
         let webp_q := Batch.get_initial_quality g "WEBP" size in
         let avif_q := Batch.get_initial_quality g "AVIF" size in
         let webp_first := first_save_quality "WEBP" (job_calls j) in
         let avif_first := first_save_quality "AVIF" (job_calls j) in
         (Batch.format_decision g = 1 ->
          webp_first = Some webp_q /\ avif_first = None) /\
         (Batch.format_decision g = 2 ->
          avif_first = Some avif_q /\ webp_first = None) /\
         (Batch.format_decision g = 3 ->
          webp_first = Some webp_q /\
          (avif_first = Some avif_q \/
           avif_first = None /\
           Batch.status_of (job_result j) = "error")) /\
         (Batch.format_decision g <> 1 -> Batch.format_decision g <> 2 ->
          Batch.format_decision g <> 3 -> job_calls j = [])
     end).
Proof.
  unfold Batch.optimize_image. rewrite !get_output_path_eq. cbv zeta.
  pose proof (not_both_in _ _ _ fs (output_is_not_dir g p "webp")
                (output_is_not_dir g p "avif")) as Hboth.
  destruct (bool_decide _ && bool_decide _) eqn:Hskip.
  - eexists. split; [reflexivity|]. split; [reflexivity|].
    intros Hn. exfalso. apply Hn, Hboth.
    apply andb_true_iff in Hskip as [Hw Ha].
    apply bool_decide_eq_true in Hw, Ha. auto.
  - assert (~ (output_of g p "webp" ∈ fs /\ output_of g p "avif" ∈ fs))
      as Hnot.
    { intros Hb. apply Hboth in Hb as [Hw Ha].
      rewrite !bool_decide_eq_true_2 in Hskip by assumption.
      discriminate. }
    clear Hskip Hboth.
    destruct (image_open (path_str p)) as [img|e];
      [|eexists; split; [reflexivity|]; split; reflexivity].
    seed_cases optimize_to_target_size_returns first_save_of_run;
      (eexists; split; [reflexivity|]);
      (split; [intros Hb; contradiction|]); intros _;
      cbn [job_calls job_result final_state] in *.
    all: repeat match goal with
           | H : (_ =? _) = false |- _ => apply Z.eqb_neq in H
           | H : (_ =? _) = true |- _ => apply Z.eqb_eq in H
           end.
    all: repeat split; intros; try lia; auto.
    all: try (apply first_save_app_some; assumption).
    all: try (rewrite first_save_app_none by auto; auto).
Qed.
End Jobs.

(** *** A selection other than 1, 2 or 3 *)

Section Invalid.
Context `{E : Externals}.
Variable g : Batch.globals.
Hypothesis not_1 : Batch.format_decision g <> 1.
Hypothesis not_2 : Batch.format_decision g <> 2.
Hypothesis not_3 : Batch.format_decision g <> 3.
Variable folder : string.
Variable fs : gset string.



Lemma record_skipped p r :
  let r' := Batch.record_result g (Batch.skipped_result p) r in
  Batch.successful r' = Batch.successful r /\
  Batch.failed r' = Batch.failed r /\
  Batch.details r' = Batch.details r ++ [Batch.skipped_result p].
Proof. cbn. auto. Qed.

Lemma record_error p e r :
  let r' := Batch.record_result g (Batch.error_result p e) r in
  Batch.successful r' = Batch.successful r /\
  Batch.failed r' = Batch.failed r + 1 /\
  Batch.details r' = Batch.details r ++ [Batch.error_result p e].
Proof. cbn. auto. Qed.


End Invalid.

(** ** The scripts' claims *)

(** C1.  The skip test asks for both output files whatever the selection:
    with the selection "WebP only" the first run writes the WebP file and no
    AVIF file, so the second run over the unchanged folder skips nothing and
    encodes the image again (successful = 1, skipped = 0 of total = 1). *)
Theorem second_run_encodes_again :
  exists run1 run2,
    Batch.process_batch (Batch.loaded "out" 1) [a_png] 4 ∅ = Some run1 /\
    bool_decide ("photos/out/a.webp" ∈ Batch.files_after run1) = true /\
    Batch.process_batch (Batch.loaded "out" 1) [a_png] 4
      (Batch.files_after run1) = Some run2 /\
    counters (Batch.results run2) = (1, 1, 0, 0) /\
    map Batch.status_of (Batch.details (Batch.results run2)) = ["success"] /\
    save_qualities (Batch.calls_made run2) = [80].
Proof. apply rerun_summary_some. vm_compute. reflexivity. Qed.

(** With the selection "both" the second run does skip. *)
Example second_run_skips_when_both :
  exists run1 run2,
    Batch.process_batch (Batch.loaded "out" 3) [a_png] 4 ∅ = Some run1 /\
    bool_decide ("photos/out/a.webp" ∈ Batch.files_after run1) = true /\
    Batch.process_batch (Batch.loaded "out" 3) [a_png] 4
      (Batch.files_after run1) = Some run2 /\
    counters (Batch.results run2) = (1, 0, 1, 0) /\
    map Batch.status_of (Batch.details (Batch.results run2)) = ["skipped"] /\
    save_qualities (Batch.calls_made run2) = [].
Proof. apply rerun_summary_some. vm_compute. reflexivity. Qed.

(** C2.  The pool never has min(requested, cap) workers: [process_batch]
    does not read its [max_workers] argument, and it asks
    [get_optimal_workers] about AVIF only when the selection is "AVIF only".
    Whatever is requested the pool has 2 workers for selection 2 and 4 for
    every other selection, "both" included. *)
Theorem pool_size_ignores_the_request `{E : Externals} (name : string)
    (n : Z) (image_files : list pypath) (max_workers : Z) (fs : gset string) :
  exists run,
    Batch.process_batch (Batch.loaded name n) image_files max_workers fs
    = Some run /\
    Batch.pool_max_workers run = if n =? 2 then 2 else 4.
Proof.
  destruct (process_batch_returns (Batch.loaded name n) image_files
              max_workers fs) as (run & Hrun & Hpool).
  exists run. split; [exact Hrun|]. rewrite Hpool. cbn.
  destruct (n =? 2); reflexivity.
Qed.

(** C5, as the code has it.  The batch script starts AVIF at 80 - 20 for an
    original over 500 KB and at 80 - 15 otherwise (not below 30), and WEBP
    at 80 - 10 over 500 KB and at 80 otherwise: that is what
    [get_initial_quality] returns, and a batch job that is not skipped and
    whose image opens makes its first WEBP encode and its first AVIF encode
    at these qualities, each for the formats the selection names.  The
    single-image script has one policy for both formats: 80 - 10 over
    500 KB, else 80; its first WEBP encode and its first AVIF encode both
    use that quality. *)
Theorem initial_quality_by_variant `{E : Externals} :
  (forall name n format_name original_size,
     Batch.get_initial_quality (Batch.loaded name n) format_name original_size
     = if String.eqb (upper format_name) "AVIF"
       then if Qgtb original_size 500
            then Z.max 30 (80 - 20) else Z.max 30 (80 - 15)
       else if Qgtb original_size 500 then 80 - 10 else 80) /\
  (forall name n input_path fs,
     let g := Batch.loaded name n in
     let both_exist :=
       output_of g input_path "webp" ∈ fs /\
       output_of g input_path "avif" ∈ fs in
     exists j,
       Batch.optimize_image g input_path fs = Some j /\
       (both_exist -> job_calls j = []) /\
       (~ both_exist ->
        match image_open (path_str input_path) with
        | Raise _ => job_calls j = []
        | Ok _ =>
            let large :=
              Qgtb (size_kb (getsize (path_str input_path))) 500 in
            let webp_q := if large then 80 - 10 else 80 in
            let avif_q :=
              if large then Z.max 30 (80 - 20) else Z.max 30 (80 - 15) in
            let webp_first := first_save_quality "WEBP" (job_calls j) in
            let avif_first := first_save_quality "AVIF" (job_calls j) in
            (n = 1 -> webp_first = Some webp_q /\ avif_first = None) /\
            (n = 2 -> avif_first = Some avif_q /\ webp_first = None) /\
            (n = 3 ->
             webp_first = Some webp_q /\
             (avif_first = Some avif_q \/
              avif_first = None /\
              Batch.status_of (job_result j) = "error")) /\
            (n <> 1 -> n <> 2 -> n <> 3 -> job_calls j = [])
        end)) /\
  (forall input_path fs,
     exists j,
       Optimizer.optimize_image input_path fs = Some j /\
       match image_open (path_str input_path) with
       | Raise _ => job_calls j = []
       | Ok _ =>
           let q :=
             if Qgtb (size_kb (getsize (path_str input_path))) 500
             then 80 - 10 else 80 in
           first_save_quality "WEBP" (job_calls j) = Some q /\
           (first_save_quality "AVIF" (job_calls j) = Some q \/
            first_save_quality "AVIF" (job_calls j) = None)
       end).
Proof.
  split; [|split].
  - intros name n f size. unfold Batch.get_initial_quality. cbn.
    repeat match goal with |- context [if ?b then _ else _] => destruct b end;
      reflexivity.
  - intros name n input_path fs. cbv zeta.
    destruct (batch_job_first_saves (Batch.loaded name n) input_path fs)
      as (j & Hj & Hskip & Hq).
    exists j. split; [exact Hj|]. split; [exact Hskip|].
    intros Hn. specialize (Hq Hn).
    destruct (image_open (path_str input_path)); [|exact Hq].
    cbv zeta in Hq. unfold Batch.get_initial_quality in Hq.
    cbn [Batch.consts Batch.loaded Batch.format_decision module_constants
         MIN_QUALITY INITIAL_QUALITY upper upper_ascii String.eqb] in Hq.
    cbn in Hq.
    destruct (Qgtb _ 500); exact Hq.
  - intros input_path fs. unfold Optimizer.optimize_image.
    cbv zeta. unfold Optimizer.get_output_path.
    destruct (image_open _) as [img|e]; [|eexists; split; reflexivity].
    change (Optimizer.initial_quality_for
              (size_kb (getsize (path_str input_path))))
      with (if Qgtb (size_kb (getsize (path_str input_path))) 500
            then 80 - 10 else 80).
    set (q := if Qgtb _ 500 then 80 - 10 else 80).
    match goal with
    | |- context [optimize_to_target_size ?c ?p ?f ?q ?i ?fs] =>
        destruct (optimize_to_target_size_returns c p f q i fs) as [o1 Ho1];
        rewrite Ho1;
        apply first_save_of_run in Ho1 as [Hw1 Ha1]
    end.
    specialize (Ha1 "AVIF" eq_refl).
    destruct o1 as [sw|e sw]; cbn [final_state] in *.
    + match goal with
      | |- context [optimize_to_target_size ?c ?p ?f ?q ?i ?fs] =>
          destruct (optimize_to_target_size_returns c p f q i fs)
            as [o2 Ho2];
          rewrite Ho2;
          apply first_save_of_run in Ho2 as [Ha2 _]
      end.
      destruct o2 as [sa|e sa]; cbn [final_state] in *.
      * repeat match goal with
               | |- context [savings_of ?a ?b] => destruct (savings_of a b)
               end;
          eexists; (split; [reflexivity|]); cbn [job_calls];
          (split; [now apply first_save_app_some
                  | left; now rewrite first_save_app_none]).
      * eexists. split; [reflexivity|]. cbn [job_calls].
        split; [now apply first_save_app_some
               | left; now rewrite first_save_app_none].
    + eexists. split; [reflexivity|]. cbn [job_calls]. auto.
Qed.

(** C5 as stated fails: for a 100 KB original the single-image script
    starts its AVIF encode at quality 80, as it does its WEBP encode, where
    the AVIF-specific policy (the batch script's) gives 80 - 15 = 65. *)
Lemma single_image_avif_starts_at_80 :
  (exists j,
     Optimizer.optimize_image a_png ∅ = Some j /\
     job_result j =
     VDict [("original",
             VDict [("path", VStr "photos/a.png"); ("size", VFloat 100);
                    ("dimensions", VStr "100x100")]);
            ("webp",
             VDict [("path", VStr "photos/optimized/a.webp");
                    ("size", VFloat 50); ("quality", VInt 80);
                    ("savings", VFloat 50); ("resized", VBool false)]);
            ("avif",
             VDict [("path", VStr "photos/optimized/a.avif");
                    ("size", VFloat 50); ("quality", VInt 80);
                    ("savings", VFloat 50); ("resized", VBool false)])] /\
     save_log (job_calls j) = [("WEBP", 80); ("AVIF", 80)]) /\
  size_kb (getsize (path_str a_png)) = 100%Q /\
  Batch.get_initial_quality (Batch.loaded "out" 3) "AVIF"
    (size_kb (getsize (path_str a_png))) = 65.
Proof.
  split; [|split; reflexivity].
  apply job_summary_some. vm_compute. reflexivity.
Qed.

(** The batch script on the same image, with the selection "both": the
    WEBP encode starts at 80 and the AVIF encode at 65. *)
Example batch_avif_starts_at_65 :
  exists j,
    Batch.optimize_image (Batch.loaded "out" 3) a_png ∅ = Some j /\
    job_result j =
    VDict [("status", VStr "success");
           ("original",
            VDict [("path", VStr "photos/a.png"); ("size", VFloat 100);
                   ("dimensions", VStr "100x100")]);
           ("webp",
            VDict [("path", VStr "photos/out/a.webp");
                   ("size", VFloat 50); ("quality", VInt 80);
                   ("savings", VFloat 50); ("resized", VBool false)]);
           ("avif",
            VDict [("path", VStr "photos/out/a.avif");
                   ("size", VFloat 50); ("quality", VInt 65);
                   ("savings", VFloat 50); ("resized", VBool false)])] /\
    save_log (job_calls j) = [("WEBP", 80); ("AVIF", 65)].
Proof. apply job_summary_some. vm_compute. reflexivity. Qed.




(** The skip test comes before the selection is looked at: when both
    outputs of the image exist, the same answer 4 ends with the job
    skipped and the exit status 0. *)
Example invalid_selection_with_outputs_present :
  exists run,
    Batch.script "out" "4" [a_png] 4
      ({["photos/out/a.webp"]} ∪ {["photos/out/a.avif"]})
    = Some (Batch.Exited 0 (Some run)) /\
    Batch.results run =
    {| Batch.total := 1; Batch.successful := 0; Batch.skipped := 1;
       Batch.failed := 0;
       Batch.details := [Batch.skipped_result "photos/a.png"];
       Batch.total_savings_webp := 0; Batch.total_savings_avif := 0 |}.
Proof. apply script_summary_some. vm_compute. reflexivity. Qed.

(** C9.  The EXIF mapping is extracted and then dropped: for an image whose
    EXIF holds the tag Make = Canon, [preserve_metadata] returns that
    mapping, and the dictionary [optimize_image] returns has the keys
    status, original and webp only, with no entry that carries it. *)
Theorem exif_is_extracted_and_dropped :
  (exists img,
     image_open (path_str shot_jpg) = Ok img /\
     preserve_metadata img = VDict [("Make", VStr "Canon")]) /\
  exists j,
    Batch.optimize_image (Batch.loaded "out" 1) shot_jpg ∅ = Some j /\
    job_result j =
    VDict [("status", VStr "success");
           ("original",
            VDict [("path", VStr "photos/shot.jpg"); ("size", VFloat 100);
                   ("dimensions", VStr "100x100")]);
           ("webp",
            VDict [("path", VStr "photos/out/shot.webp");
                   ("size", VFloat 50); ("quality", VInt 80);
                   ("savings", VFloat 50); ("resized", VBool false)])] /\
    save_log (job_calls j) = [("WEBP", 80)].
Proof.
  split.
  - eexists. split; reflexivity.
  - apply job_summary_some. vm_compute. reflexivity.
Qed.

(** ** Further properties of the optimizer *)

Section MorePhases.
Context `{E : Externals}.
Variable c : constants.
Variables output_path format_name : string.
Variable initial_quality : Z.

(** Running the function from an invariant of each phase, the upward one
    holding where the upward loop is entered. *)
Lemma optimize_to_target_size_phases (I0 I1 Iup : ostate -> Prop)
    (P : outcome -> Prop) img fs o :
  match save output_path format_name
          (working_copy format_name img) initial_quality
          (start format_name initial_quality img fs) with
  | (s, Ok size) => I0 (set_current_size size s)
  | (s, Raise e) => P (Failed e s)
  end ->
  (forall s, I0 s ->
     match down_body c output_path format_name initial_quality s with
     | Continue s' => I0 s'
     | Break s' => I1 s'
     | Raised e s' => P (Failed e s')
     end) ->
  (forall s, I1 s ->
     if Qltb (current_size s) (inject_Z (TARGET_MIN_SIZE_KB c))
        && negb (resize_needed s)
     then Iup s else P (Done s)) ->
  (forall s, Iup s ->
     match up_body c output_path format_name s with
     | Continue s' => Iup s'
     | Break s' => P (Done s')
     | Raised e s' => P (Failed e s')
     end) ->
  optimize_to_target_size c output_path format_name initial_quality img fs
  = Some o ->
  P o.
Proof.
  intros Hseed Hdown Hmid Hup. unfold optimize_to_target_size.
  cbn [start current_img quality].
  fold (start format_name initial_quality img fs).
  destruct (save _ _ _ _ _) as [s1 [size|e]].
  - destruct (loop _ _ _) as [o1|] eqn:Hl; [|discriminate].
    assert (match o1 with Done s => I1 s | Failed e s => P (Failed e s) end)
      as Ho1.
    { eapply (loop_invariant _ I0
               (fun o => match o with
                         | Done s => I1 s
                         | Failed e s => P (Failed e s)
                         end));
        [|exact Hseed|exact Hl].
      intros s Hs0. specialize (Hdown s Hs0).
      destruct (down_body _ _ _ _ _); auto. }
    destruct o1 as [s2|e s2]; [|intros [= <-]; auto].
    specialize (Hmid s2 Ho1).
    destruct (Qltb _ _ && _).
    + intros Hl2. eapply (loop_invariant _ Iup P); [|exact Hmid|exact Hl2].
      exact Hup.
    + intros [= <-]. auto.
  - intros [= <-]. auto.
Qed.

(** *** The result describes the file; nothing else is touched *)

Lemma down_body_described fs s :
  described output_path format_name s /\ framed output_path fs s ->
  match down_body c output_path format_name initial_quality s with
  | Continue s' | Break s' =>
      described output_path format_name s' /\ framed output_path fs s'
  | Raised e s' => framed output_path fs s'
  end.
Proof.
  intros [(pre & bytes & Hc & He & Hs & Hf) [Hf1 Hf2]].
  unfold down_body, save, described, framed. step_cases.
  all: described_step.
  all: eauto 10.
Qed.

Lemma up_body_described fs s :
  described output_path format_name s /\ framed output_path fs s ->
  match up_body c output_path format_name s with
  | Continue s' | Break s' =>
      described output_path format_name s' /\ framed output_path fs s'
  | Raised e s' => framed output_path fs s'
  end.
Proof.
  intros [(pre & bytes & Hc & He & Hs & Hf) [Hf1 Hf2]].
  unfold up_body, save, described, framed. step_cases.
  all: described_step.
  all: eauto 10.
Qed.

Lemma run_described img fs o :
  optimize_to_target_size c output_path format_name initial_quality img fs
  = Some o ->
  framed output_path fs (final_state o) /\
  match o with
  | Done s => described output_path format_name s
  | Failed _ _ => True
  end.
Proof.
  apply (optimize_to_target_size_inv c output_path format_name initial_quality
           (fun s => described output_path format_name s
                     /\ framed output_path fs s)
           (fun s => described output_path format_name s
                     /\ framed output_path fs s)
           (fun o => framed output_path fs (final_state o) /\
                     match o with
                     | Done s => described output_path format_name s
                     | Failed _ _ => True
                     end)).
  - unfold save, described, framed. step_cases.
    + described_step. exists [], a. repeat split; auto. set_solver.
    + described_step.
  - intros s Hs. apply (down_body_described fs) in Hs.
    destruct (down_body _ _ _ _ _); cbn; tauto.
  - intros s Hs. apply (up_body_described fs) in Hs.
    destruct (up_body _ _ _ _); cbn; tauto.
  - cbn. tauto.
Qed.

(** The paths before and after a run, and the run's writes. *)
Lemma run_files img fs o :
  optimize_to_target_size c output_path format_name initial_quality img fs
  = Some o ->
  fs ⊆ files (final_state o) /\
  files (final_state o) ⊆ {[output_path]} ∪ fs /\
  match o with
  | Done s => output_path ∈ files s
  | Failed _ _ => True
  end /\
  Forall (call_of output_path format_name) (calls (final_state o)).
Proof.
  intros Ho. destruct (run_described img fs o Ho) as [[H1 H2] Hd].
  split; [exact H1|]. split; [exact H2|]. split.
  - destruct o; [|exact I]. destruct Hd as (? & ? & ? & ? & ? & ?).
    assumption.
  - destruct (trace_starts_with_seed c output_path format_name
                initial_quality img fs o Ho) as (rest & -> & Hall).
    constructor; [split; reflexivity | exact Hall].
Qed.

(** *** The [resize_needed] flag *)

Lemma at_most_snoc hi l p f (img : image Pixels) q :
  Forall (save_quality_at_most hi) l -> q <= hi ->
  Forall (save_quality_at_most hi) (l ++ [ESave p f img q]).
Proof.
  intros Hl Hq. apply Forall_app. split; [exact Hl|]. repeat constructor.
  exact Hq.
Qed.

Lemma at_most_snoc_resize hi (l : list event) old new :
  Forall (save_quality_at_most hi) l ->
  Forall (save_quality_at_most hi) (l ++ [EResize old new]).
Proof. intros Hl. apply Forall_app. split; [exact Hl|]. repeat constructor. Qed.

Lemma down_body_flag s :
  flag_inv initial_quality s ->
  match down_body c output_path format_name initial_quality s with
  | Continue s' | Break s' => flag_inv initial_quality s'
  | Raised e s' => True
  end.
Proof.
  intros (Hf & Ha & Hq). unfold down_body, save, flag_inv. step_cases; auto.
  all: rewrite ?resizes_snoc_save, ?resizes_snoc_resize.
  all: split; [|split; [|lia]].
  all: try exact Hf.
  all: try (apply at_most_snoc; [|lia]); try apply at_most_snoc_resize; auto.
  all: split; [intros _ | reflexivity].
  all: intros H; apply app_eq_nil in H as [_ H]; discriminate.
Qed.

Lemma up_body_flag s :
  resize_needed s = false /\ resizes (calls s) = [] ->
  match up_body c output_path format_name s with
  | Continue s' => resize_needed s' = false /\ resizes (calls s') = []
  | Break s' => flag_post initial_quality (Done s')
  | Raised e s' => True
  end.
Proof.
  intros (Hf & Hr). unfold up_body, save, flag_post, returned.
  step_cases; auto.
  all: rewrite ?resizes_snoc_save, ?resizes_snoc_resize, Hf, Hr.
  all: try (split; [reflexivity|assumption]).
  all: split; [split|]; congruence.
Qed.

Lemma flag_holds img fs o :
  optimize_to_target_size c output_path format_name initial_quality img fs
  = Some o ->
  flag_post initial_quality o.
Proof.
  apply (optimize_to_target_size_phases (flag_inv initial_quality)
           (flag_inv initial_quality)
           (fun s => resize_needed s = false /\ resizes (calls s) = [])
           (flag_post initial_quality)).
  - unfold save, flag_inv, flag_post. step_cases; auto.
    unfold resizes. cbn. split; [split; [discriminate|congruence]|].
    split; [|lia]. repeat constructor. cbn. lia.
  - intros s Hs. apply down_body_flag in Hs.
    destruct (down_body _ _ _ _ _); auto.
  - intros s (Hf & Ha & Hq).
    destruct (Qltb _ _ && negb (resize_needed s)) eqn:Ht.
    + apply andb_true_iff in Ht as [_ Hn].
      apply negb_true_iff in Hn. split; [exact Hn|].
      destruct (resizes (calls s)) eqn:Hr; [reflexivity|].
      rewrite Hn in Hf. destruct Hf as [_ Hf].
      assert (false = true) by (apply Hf; discriminate). discriminate.
    + cbn. tauto.
  - apply up_body_flag.
Qed.

End MorePhases.

(** *** When the size returned can exceed 100 KB *)

Section Budget.
Context `{E : Externals}.
Variables output_path format_name : string.
Variable initial_quality : Z.

Lemma Qgtb_false_le a b : Qgtb a b = false -> (a <= b)%Q.
Proof.
  unfold Qgtb. intros H. apply negb_false_iff in H. now apply Qle_bool_iff.
Qed.

Lemma Qltb_true_lt a b : Qltb a b = true -> (a < b)%Q.
Proof.
  unfold Qltb. intros H. apply negb_true_iff in H.
  apply Qnot_le_lt. intros Hle. apply Qle_bool_iff in Hle. congruence.
Qed.

Lemma save_qualities_snoc l p f (img : image Pixels) q :
  save_qualities (l ++ [ESave p f img q]) = save_qualities l ++ [q].
Proof. unfold save_qualities. rewrite flat_map_app. reflexivity. Qed.

Lemma save_qualities_snoc_resize (l : list event) old new :
  save_qualities (l ++ [EResize old new]) = save_qualities l.
Proof. unfold save_qualities. rewrite flat_map_app. cbn. apply app_nil_r. Qed.

Lemma down_body_budget s :
  budget_inv format_name s ->
  match down_body module_constants output_path format_name initial_quality s
  with
  | Continue s' => budget_inv format_name s'
  | Break s' => size_is_current format_name s' /\ over_budget_only_if s'
  | Raised e s' => True
  end.
Proof.
  intros (Hs & Hn & Hr).
  unfold down_body, save, budget_inv, size_is_current, over_budget_only_if,
    returned, max_resize_attempts.
  step_cases; auto.
  all: rewrite ?resizes_snoc_save, ?resizes_snoc_resize, ?length_app.
  all: cbn [length].
  all: try (split; [eauto | split; lia]).
  - split; [exact Hs|]. right. left. split; lia.
  - split; [exact Hs|]. left. now apply Qgtb_false_le.
Qed.

Lemma up_body_budget s :
  size_is_current format_name s /\ (current_size s <= 100)%Q ->
  match up_body module_constants output_path format_name s with
  | Continue s' => size_is_current format_name s' /\ (current_size s' <= 100)%Q
  | Break s' => over_budget_only_if s'
  | Raised e s' => True
  end.
Proof.
  intros ((bytes & He & Hs) & Hle).
  unfold up_body, save, size_is_current, over_budget_only_if, returned.
  step_cases; auto.
  all: try (split; [eauto | now apply Qgtb_false_le]).
  - right. right. exists (save_qualities (calls s)).
    rewrite !save_qualities_snoc, <- app_assoc. reflexivity.
  - left. replace (quality s + 5 - 5) with (quality s) in * by lia.
    assert (a0 = bytes) as -> by congruence. now rewrite <- Hs.
Qed.

Lemma budget_holds img fs o :
  optimize_to_target_size module_constants output_path format_name
    initial_quality img fs = Some o ->
  budget_post o.
Proof.
  apply (optimize_to_target_size_phases module_constants output_path
           format_name initial_quality (budget_inv format_name)
           (fun s => size_is_current format_name s /\ over_budget_only_if s)
           (fun s => size_is_current format_name s
                     /\ (current_size s <= 100)%Q)
           budget_post).
  - unfold save, budget_inv, budget_post, size_is_current. step_cases; auto.
    unfold resizes. cbn. split; [eauto | split; lia].
  - apply down_body_budget.
  - intros s (Hs & Ho).
    destruct (Qltb _ _ && negb (resize_needed s)) eqn:Ht; [|exact Ho].
    apply andb_true_iff in Ht as [Hlt _]. apply Qltb_true_lt in Hlt.
    split; [exact Hs|]. apply Qlt_le_weak. eapply Qlt_le_trans; [exact Hlt|].
    cbn. unfold Qle. cbn. lia.
  - apply up_body_budget.
Qed.

(** *** How many encodes a run can make *)

Hypothesis initial_in_range : 30 <= initial_quality <= 98.

Lemma encodes_snoc l p f (img : image Pixels) q :
  encodes (l ++ [ESave p f img q]) = encodes l + 1.
Proof.
  unfold encodes. rewrite save_qualities_snoc, length_app. cbn [length]. lia.
Qed.

Lemma encodes_snoc_resize l old new :
  encodes (l ++ [EResize old new]) = encodes l.
Proof. unfold encodes. now rewrite save_qualities_snoc_resize. Qed.

Lemma down_body_encodes s :
  encodes_down initial_quality s ->
  match down_body module_constants output_path format_name initial_quality s
  with
  | Continue s' | Break s' => encodes_down initial_quality s'
  | Raised e s' => encodes_post initial_quality (Failed e s')
  end.
Proof.
  intros (Hq & Hr & Hf & Hn).
  unfold down_body, save, encodes_down, encodes_post, encodes_bound,
    max_resize_attempts in *.
  step_cases; auto.
  all: rewrite ?encodes_snoc, ?encodes_snoc_resize.
  all: unfold walk_down in *.
  all: try (repeat split; try congruence; count_resizes s;
            Z.div_mod_to_equations; lia).
Qed.

Lemma up_body_encodes s :
  encodes_up initial_quality s ->
  match up_body module_constants output_path format_name s with
  | Continue s' => encodes_up initial_quality s'
  | Break s' => encodes_post initial_quality (Done s')
  | Raised e s' => encodes_post initial_quality (Failed e s')
  end.
Proof.
  intros (Hq & Hn).
  unfold up_body, save, encodes_up, encodes_post, encodes_bound in *.
  step_cases; auto.
  all: rewrite ?encodes_snoc.
  all: unfold walk_down in *.
  all: try (repeat split; Z.div_mod_to_equations; lia).
Qed.

Lemma encodes_hold img fs o :
  optimize_to_target_size module_constants output_path format_name
    initial_quality img fs = Some o ->
  encodes_post initial_quality o.
Proof.
  apply (optimize_to_target_size_phases module_constants output_path
           format_name initial_quality (encodes_down initial_quality)
           (encodes_down initial_quality) (encodes_up initial_quality)
           (encodes_post initial_quality)).
  - unfold save, encodes_down, encodes_post, encodes_bound, walk_down.
    step_cases.
    + change (encodes _) with 1. repeat split; try lia.
    + change (encodes _) with 1. Z.div_mod_to_equations; lia.
  - apply down_body_encodes.
  - intros s (Hq & Hr & Hf & Hn).
    unfold encodes_up, encodes_post, encodes_bound, walk_down in *.
    destruct (Qltb _ _ && negb (resize_needed s)) eqn:Ht.
    + apply andb_true_iff in Ht as [_ Hneg]. apply negb_true_iff in Hneg.
      rewrite (Hf Hneg) in *. split; [lia|]. Z.div_mod_to_equations; lia.
    + cbn [final_state]. count_resizes s; Z.div_mod_to_equations; lia.
  - apply up_body_encodes.
Qed.

End Budget.

(** ** Further properties of jobs and batches *)

Section SetFacts.
Implicit Types fs F G : gset string.

Lemma frame_none dir w a fs :
  let fs2 : gset string := {[dir]} ∪ ({[dir]} ∪ fs) in
  fs ⊆ fs2 /\ dir ∈ fs2 /\ fs2 ⊆ {[dir]} ∪ {[w]} ∪ {[a]} ∪ fs /\
  fs2 = {[dir]} ∪ fs /\
  fs2 ⊆ {[dir]} ∪ {[w]} ∪ fs /\ fs2 ⊆ {[dir]} ∪ {[a]} ∪ fs.
Proof. set_solver. Qed.

Lemma frame_webp dir w a fs F :
  let fs2 : gset string := {[dir]} ∪ ({[dir]} ∪ fs) in
  fs2 ⊆ F -> F ⊆ {[w]} ∪ fs2 ->
  fs ⊆ F /\ dir ∈ F /\ F ⊆ {[dir]} ∪ {[w]} ∪ {[a]} ∪ fs /\
  F ⊆ {[dir]} ∪ {[w]} ∪ fs.
Proof. set_solver. Qed.

Lemma frame_avif dir w a fs F :
  let fs2 : gset string := {[dir]} ∪ ({[dir]} ∪ fs) in
  fs2 ⊆ F -> F ⊆ {[a]} ∪ fs2 ->
  fs ⊆ F /\ dir ∈ F /\ F ⊆ {[dir]} ∪ {[w]} ∪ {[a]} ∪ fs /\
  F ⊆ {[dir]} ∪ {[a]} ∪ fs.
Proof. set_solver. Qed.

Lemma frame_both dir w a fs F G :
  let fs2 : gset string := {[dir]} ∪ ({[dir]} ∪ fs) in
  fs2 ⊆ F -> F ⊆ {[w]} ∪ fs2 -> F ⊆ G -> G ⊆ {[a]} ∪ F ->
  fs ⊆ G /\ dir ∈ G /\ G ⊆ {[dir]} ∪ {[w]} ∪ {[a]} ∪ fs /\
  (w ∈ F -> w ∈ G).
Proof.
  intros fs2 H1 H2 H3 H4.
  split; [set_solver|]. split; [set_solver|]. split; [|set_solver].
  transitivity ({[a]} ∪ ({[w]} ∪ fs2)); [|set_solver].
  transitivity ({[a]} ∪ F); [exact H4|]. now apply union_mono_l.
Qed.

End SetFacts.

Section MoreJobs.
Context `{E : Externals}.
Variable g : Batch.globals.

Lemma job_has_effects p fs :
  exists j, Batch.optimize_image g p fs = Some j /\ job_effects g p fs j.
Proof.
  unfold Batch.optimize_image. rewrite !get_output_path_eq. cbv zeta.
  pose proof (not_both_in _ _ _ fs (output_is_not_dir g p "webp")
                (output_is_not_dir g p "avif")) as Hboth.
  pose proof (frame_none (output_dir g p) (output_of g p "webp")
                (output_of g p "avif") fs) as (N1 & N2 & N3 & N4 & N5 & N6).
  cbv zeta in *.
  run_cases optimize_to_target_size_returns run_files;
    (eexists; split; [reflexivity|]); unfold job_effects; cbn.
  all: rewrite ?andb_true_iff, ?andb_false_iff, ?bool_decide_eq_true,
         ?bool_decide_eq_false in *.
  all: frames frame_webp frame_avif frame_both
         (output_dir g p) (output_of g p "webp") (output_of g p "avif") fs.
  all: repeat match goal with |- _ /\ _ => split end; auto.
  all: try (intros; discriminate).
  all: try (split; [discriminate | intros Hb; apply Hboth in Hb; tauto]).
  all: try (split; [intros _; now apply Hboth | reflexivity]).
  all: try (intros _; first [ left; repeat split; assumption
                            | right; left; repeat split; assumption
                            | right; right; repeat split; auto ]).
Qed.

(** The encodes of a job go to the job's own outputs, in the formats the
    selection names. *)
Lemma job_writes p fs :
  exists j,
    Batch.optimize_image g p fs = Some j /\
    Forall (writes_only g p) (job_calls j) /\
    (Batch.format_decision g = 1 ->
     Forall (call_of (output_of g p "webp") "WEBP") (job_calls j)) /\
    (Batch.format_decision g = 2 ->
     Forall (call_of (output_of g p "avif") "AVIF") (job_calls j)).
Proof.
  unfold Batch.optimize_image. rewrite !get_output_path_eq. cbv zeta.
  run_cases optimize_to_target_size_returns run_files;
    (eexists; split; [reflexivity|]); cbn [job_calls final_state] in *.
  all: repeat match goal with
         | H : (_ =? _) = false |- _ => apply Z.eqb_neq in H
         | H : (_ =? _) = true |- _ => apply Z.eqb_eq in H
         end.
  all: split; [|split; intros; try lia; auto].
  all: rewrite ?Forall_app; repeat split.
  all: try (constructor; fail).
  all: try match goal with
           | H : Forall (call_of _ _) ?l |- Forall (writes_only _ _) ?l =>
               eapply Forall_impl; [exact H|]; intros ev Hev;
               first [left; exact Hev | right; exact Hev]
           end.
Qed.

(** A job whose two outputs exist is skipped, whatever the selection. *)
Lemma job_skipped p fs :
  output_of g p "webp" ∈ fs -> output_of g p "avif" ∈ fs ->
  exists fs',
    Batch.optimize_image g p fs
    = Some {| job_result := Batch.skipped_result (path_str p);
              job_files := fs'; job_calls := [] |} /\
    fs ⊆ fs'.
Proof.
  intros Hw Ha. unfold Batch.optimize_image. rewrite !get_output_path_eq.
  cbv zeta.
  rewrite !bool_decide_eq_true_2.
  - eexists. split; [reflexivity|].
    apply union_subseteq_r', union_subseteq_r.
  - apply elem_of_union_r, elem_of_union_r, Ha.
  - apply elem_of_union_r, elem_of_union_r, Hw.
Qed.

(** A job that returns an error returns [error_result] for its path. *)
Lemma job_error_shape p fs :
  exists j,
    Batch.optimize_image g p fs = Some j /\
    (Batch.status_of (job_result j) = "error" ->
     exists e, job_result j = Batch.error_result (path_str p) e).
Proof.
  unfold Batch.optimize_image, Batch.get_output_path. cbv zeta.
  job_cases optimize_to_target_size_returns;
    eexists; (split; [reflexivity|]); cbn; eauto; discriminate.
Qed.

Lemma count_status_app st l1 l2 :
  count_status st (l1 ++ l2) = count_status st l1 + count_status st l2.
Proof.
  unfold count_status. rewrite List.filter_app, length_app. lia.
Qed.

Lemma count_status_one st v :
  count_status st [v] = if String.eqb (Batch.status_of v) st then 1 else 0.
Proof. unfold count_status. cbn. now destruct (String.eqb _ _). Qed.

Lemma count_status_nonneg st l : 0 <= count_status st l.
Proof. unfold count_status. lia. Qed.

Lemma record_known v r :
  known_status v ->
  let r' := Batch.record_result g v r in
  Batch.total r' = Batch.total r /\
  Batch.details r' = Batch.details r ++ [v] /\
  Batch.successful r' = Batch.successful r + count_status "success" [v] /\
  Batch.skipped r' = Batch.skipped r + count_status "skipped" [v] /\
  Batch.failed r' = Batch.failed r + count_status "error" [v].
Proof.
  intros Hk. rewrite !count_status_one. unfold Batch.record_result.
  destruct Hk as [-> | [-> | ->]]; cbn;
    repeat match goal with
           | |- context [if ?b then _ else _] => destruct b
           end; cbn; repeat split; lia.
Qed.

Lemma job_known_effects p fs :
  exists j,
    Batch.optimize_image g p fs = Some j /\
    known_status (job_result j) /\ job_effects g p fs j.
Proof.
  destruct (job_status_is_known g p fs) as (j & Hj & Hk).
  destruct (job_has_effects p fs) as (j' & Hj' & He).
  assert (j' = j) as -> by congruence. eauto.
Qed.

(** The jobs of a batch, one after the other. *)
Lemma run_jobs_spec image_files :
  forall r fs cs,
  exists r' fs' cs' ds,
    Batch.run_jobs g image_files r fs cs = Some (r', fs', cs') /\
    fs ⊆ fs' /\
    Batch.total r' = Batch.total r /\
    Batch.details r' = Batch.details r ++ ds /\
    length ds = length image_files /\
    Forall known_status ds /\
    Batch.successful r' = Batch.successful r + count_status "success" ds /\
    Batch.skipped r' = Batch.skipped r + count_status "skipped" ds /\
    Batch.failed r' = Batch.failed r + count_status "error" ds /\
    (Batch.format_decision g = 3 -> count_status "error" ds = 0 ->
     forall p, In p image_files ->
       output_of g p "webp" ∈ fs' /\ output_of g p "avif" ∈ fs').
Proof.
  induction image_files as [|p rest IH]; intros r fs cs.
  - exists r, fs, cs, []. cbn. rewrite app_nil_r.
    unfold count_status; cbn.
    repeat split; auto; try lia; try (intros _ _ p []); try constructor.
  - destruct (job_known_effects p fs) as (j & Hj & Hk & He).
    cbn [Batch.run_jobs]. rewrite Hj.
    destruct (record_known _ r Hk) as (Ht & Hd & Hs & Hsk & Hf).
    destruct (IH (Batch.record_result g (job_result j) r) (job_files j)
                (cs ++ job_calls j))
      as (r' & fs' & cs' & ds & Hrun & Hsub & Ht' & Hd' & Hlen & Hall
          & Hs' & Hsk' & Hf' & Hout).
    destruct He as (He1 & He2 & He3 & He4 & He5 & He6).
    exists r', fs', cs', (job_result j :: ds).
    change (job_result j :: ds) with ([job_result j] ++ ds).
    rewrite !count_status_app.
    split; [exact Hrun|]. split; [now transitivity (job_files j)|].
    split; [congruence|].
    split; [rewrite Hd', Hd, <- app_assoc; reflexivity|].
    split; [cbn; lia|]. split; [constructor; assumption|].
    split; [lia|]. split; [lia|]. split; [lia|].
    pose proof (count_status_nonneg "error" ds) as Hn.
    pose proof (count_status_nonneg "error" [job_result j]) as Hn1.
    intros H3 Hz q [<- | Hin].
    + rewrite count_status_one in Hz.
      destruct Hk as [Hk | [Hk | Hk]].
      * destruct (He6 Hk) as [(? & _) | [(? & _) | (_ & Hw & Ha)]];
          try lia.
        split; eapply elem_of_weaken; eauto.
      * apply He4 in Hk as [Hw Ha].
        split; eapply elem_of_weaken; eauto; now transitivity (job_files j).
      * rewrite Hk in Hz. cbn in Hz. lia.
    + apply Hout; auto. lia.
Qed.


Lemma no_error_count ds :
  Forall known_status ds ->
  (count_status "error" ds = 0
   <-> Forall (fun v => Batch.status_of v <> "error") ds).
Proof.
  induction 1 as [|v ds Hv _ IH].
  - split; [constructor | reflexivity].
  - change (v :: ds) with ([v] ++ ds). rewrite count_status_app.
    pose proof (count_status_nonneg "error" ds).
    rewrite count_status_one.
    destruct (String.eqb (Batch.status_of v) "error") eqn:He.
    + apply String.eqb_eq in He. split; [lia|].
      intros Hf. inversion Hf; contradiction.
    + apply String.eqb_neq in He. rewrite Z.add_0_l, IH. split.
      * intros Hf. constructor; assumption.
      * intros Hf. inversion Hf; assumption.
Qed.

End MoreJobs.

(** ** The images a folder holds *)

Section Names.

Lemma ends_with_iff ext name :
  ends_with ext name = true <-> exists pre, name = pre +:+ ext.
Proof.
  induction name as [|c rest IH]; cbn [ends_with].
  - rewrite orb_false_r, String.eqb_eq. split.
    + intros <-. now exists "".
    + intros ([|? ?] & H); cbn in H; [auto | discriminate].
  - rewrite orb_true_iff, String.eqb_eq, IH. split.
    + intros [<- | (pre & ->)]; [now exists "" | now exists (String c pre)].
    + intros ([|c' pre] & H); cbn in H; [auto|].
      injection H as -> ->. right. now exists pre.
Qed.

Lemma last_dot_no_dot s : no_dot s = true -> last_dot s = None.
Proof.
  induction s as [|c rest IH]; cbn; [reflexivity|].
  intros H. apply andb_true_iff in H as [Hc Hr]. rewrite (IH Hr).
  apply negb_true_iff in Hc. now rewrite Hc.
Qed.

Lemma last_dot_app pre rest :
  no_dot rest = true ->
  last_dot (pre +:+ String "." rest) = Some (pre, String "." rest).
Proof.
  intros H. induction pre as [|c pre IH].
  - change (last_dot (String "." rest) = Some ("", String "." rest)).
    cbn [last_dot]. now rewrite (last_dot_no_dot rest H).
  - change (last_dot (String c (pre +:+ String "." rest))
            = Some (String c pre, String "." rest)).
    cbn [last_dot]. now rewrite IH.
Qed.

Lemma append_empty s : s +:+ "" = s.
Proof.
  induction s as [|c s IH]; [reflexivity|].
  change (String c (s +:+ "") = String c s). now rewrite IH.
Qed.

(** A name is its stem followed by its suffix. *)
Lemma py_split_join name : fst (py_split name) +:+ snd (py_split name) = name.
Proof.
  unfold py_split.
  assert (forall s b a, last_dot s = Some (b, a) -> b +:+ a = s) as Hj.
  { induction s as [|c rest IH]; cbn; [discriminate|]. intros b a.
    destruct (last_dot rest) as [[b' a']|].
    - intros [= <- <-]. change (String c (b' +:+ a') = String c rest).
      f_equal. now apply IH.
    - destruct (Ascii.eqb c "."); [|discriminate]. now intros [= <- <-]. }
  destruct (last_dot name) as [[b a]|] eqn:Hl; cbn.
  - destruct (_ || _); cbn [fst snd]; [apply append_empty | now apply Hj].
  - apply append_empty.
Qed.

Lemma path_in_inj folder : Inj (=) (=) (path_in folder).
Proof.
  intros n1 n2 H. rewrite <- (py_split_join n1), <- (py_split_join n2).
  unfold path_in in H. injection H as -> ->. reflexivity.
Qed.

(** A name matched by one of the six patterns has that extension as its
    suffix, unless the name is the extension itself (a hidden file). *)
Lemma matched_suffix ext name :
  In ext spellings -> ends_with ext name = true ->
  snd (py_split name) = ext \/ name = ext.
Proof.
  intros Hin H. apply ends_with_iff in H as (pre & ->).
  destruct pre as [|c pre]; [now right|]. left.
  assert (exists rest, ext = String "." rest /\ no_dot rest = true
                       /\ rest <> "") as (rest & -> & Hr & Hne).
  { cbn in Hin.
    repeat (destruct Hin as [<- | Hin];
            [eexists; split; [reflexivity | split; [reflexivity|discriminate]]
            |]). destruct Hin. }
  unfold py_split. rewrite (last_dot_app (String c pre) rest Hr).
  cbn. destruct rest; [contradiction|]. reflexivity.
Qed.

Lemma hidden_has_no_suffix ext :
  In ext spellings -> py_split ext = (ext, "").
Proof.
  cbn. intros H.
  repeat (destruct H as [<- | H]; [reflexivity|]). destruct H.
Qed.

Lemma matched_once ext ext' name :
  In ext spellings -> In ext' spellings ->
  ends_with ext name = true -> ends_with ext' name = true -> ext = ext'.
Proof.
  intros Hi Hi' He He'.
  destruct (matched_suffix ext name Hi He) as [Hs | Hn];
    destruct (matched_suffix ext' name Hi' He') as [Hs' | Hn'];
    try congruence.
  - subst name. rewrite (hidden_has_no_suffix ext' Hi') in Hs. cbn in Hs.
    subst ext. cbn in Hi. repeat (destruct Hi as [Hi|Hi]; [discriminate|]).
    destruct Hi.
  - subst name. rewrite (hidden_has_no_suffix ext Hi) in Hs'. cbn in Hs'.
    subst ext'. cbn in Hi'.
    repeat (destruct Hi' as [Hi'|Hi']; [discriminate|]). destruct Hi'.
Qed.

Lemma find_is_flat_map folder names :
  Batch.find_images_in_folder folder (Directory names)
  = flat_map (glob folder names) spellings.
Proof.
  unfold Batch.find_images_in_folder, spellings.
  cbn [flat_map app]. rewrite <- !app_assoc. reflexivity.
Qed.

Lemma in_glob folder names ext p :
  In p (glob folder names ext)
  <-> exists name,
        In name names /\ ends_with ext name = true /\ p = path_in folder name.
Proof.
  unfold glob. rewrite in_map_iff. split.
  - intros (name & <- & Hin). apply List.filter_In in Hin as [Hin He]. eauto.
  - intros (name & Hin & He & ->). exists name. split; [reflexivity|].
    apply List.filter_In. auto.
Qed.

Lemma found_iff folder names p :
  In p (Batch.find_images_in_folder folder (Directory names))
  <-> exists name ext,
        In name names /\ In ext spellings /\ ends_with ext name = true /\
        p = path_in folder name.
Proof.
  rewrite find_is_flat_map, in_flat_map. split.
  - intros (ext & He & Hin). apply in_glob in Hin as (name & ? & ? & ?).
    eauto 10.
  - intros (name & ext & Hn & He & Hm & ->). exists ext. split; [exact He|].
    apply in_glob. eauto.
Qed.

Lemma glob_nodup folder names ext :
  List.NoDup names -> List.NoDup (glob folder names ext).
Proof.
  intros Hn. unfold glob. apply Finite.Injective_map_NoDup.
  - intros a b. apply path_in_inj.
  - now apply List.NoDup_filter.
Qed.

Lemma globs_nodup folder names exts :
  List.NoDup names -> List.NoDup exts -> incl exts spellings ->
  List.NoDup (flat_map (glob folder names) exts).
Proof.
  intros Hn. induction exts as [|e es IH]; intros He Hsub; cbn.
  - constructor.
  - inversion He as [|? ? Hnotin Hes]; subst.
    apply List.NoDup_app.
    + now apply glob_nodup.
    + apply IH; [exact Hes|]. intros x Hx. apply Hsub. now right.
    + intros p Hp Hq. apply in_glob in Hp as (name & _ & Hm & ->).
      apply in_flat_map in Hq as (e' & He' & Hq).
      apply in_glob in Hq as (name' & _ & Hm' & Heq).
      apply path_in_inj in Heq. subst name'.
      assert (e = e') as <-.
      { eapply matched_once; eauto; apply Hsub; [now left | now right]. }
      contradiction.
Qed.

Lemma found_nodup folder names :
  List.NoDup names ->
  List.NoDup (Batch.find_images_in_folder folder (Directory names)).
Proof.
  intros Hn. rewrite find_is_flat_map.
  apply globs_nodup; [exact Hn | | apply incl_refl].
  unfold spellings. repeat constructor; cbn; intuition discriminate.
Qed.

Lemma found_suffix folder names p :
  In p (Batch.find_images_in_folder folder (Directory names)) ->
  In (suffix p) spellings \/ (suffix p = "" /\ In (stem p) spellings).
Proof.
  intros H. apply found_iff in H as (name & ext & _ & Hi & Hm & ->).
  destruct (matched_suffix ext name Hi Hm) as [Hs | ->].
  - left. cbn. now rewrite Hs.
  - right. cbn. now rewrite (hidden_has_no_suffix ext Hi).
Qed.

End Names.

(** ** The single-image script *)

Section Single.
Context `{E : Externals}.

Lemma single_output_path_eq p f fs :
  Optimizer.get_output_path p f fs
  = (single_output_of p f, {[parent p +:+ "/" +:+ "optimized"]} ∪ fs).
Proof. reflexivity. Qed.

(** [optimize_image] of the single-image script returns [None], or a
    dictionary with both outputs written. *)
Lemma single_job_outcome p fs :
  exists j,
    Optimizer.optimize_image p fs = Some j /\
    fs ⊆ job_files j /\
    (job_result j = VNone \/
     (truthy (job_result j) = true /\
      single_output_of p "webp" ∈ job_files j /\
      single_output_of p "avif" ∈ job_files j)).
Proof.
  unfold Optimizer.optimize_image.
  repeat (progress (rewrite ?single_output_path_eq; cbv zeta;
                    run_cases optimize_to_target_size_returns run_files));
    (eexists; split; [reflexivity|]); cbn [job_result job_files final_state]
                                        in *.
  all: split; [set_solver|auto].
  right. split; [reflexivity|]. split; [set_solver|assumption].
Qed.

End Single.

(** ** Metadata *)

Section Metadata.
Context `{E : Externals}.

Lemma dict_get_set k k' v d :
  dict_get k (dict_set k' v d)
  = if String.eqb k k' then Some v else dict_get k d.
Proof.
  induction d as [|[k0 v0] d IH]; cbn.
  - reflexivity.
  - destruct (String.eqb k' k0) eqn:H0; cbn.
    + apply String.eqb_eq in H0. subst k0.
      destruct (String.eqb k k'); reflexivity.
    + destruct (String.eqb k k0) eqn:H1.
      * apply String.eqb_eq in H1. subst k0.
        rewrite String.eqb_sym, H0. reflexivity.
      * exact IH.
Qed.

Lemma dict_set_keys k v d :
  List.NoDup (dict_keys d) -> List.NoDup (dict_keys (dict_set k v d)) /\
  forall k0, In k0 (dict_keys (dict_set k v d)) <-> k0 = k \/ In k0 (dict_keys d).
Proof.
  unfold dict_keys. induction d as [|[k1 v1] d IH]; cbn; intros Hn.
  - split; [repeat constructor; auto | intros; intuition].
  - inversion Hn as [|? ? Hnotin Hd]; subst.
    destruct (String.eqb k k1) eqn:H1; cbn.
    + apply String.eqb_eq in H1. subst k1. split; [exact Hn|].
      intros; intuition.
    + apply String.eqb_neq in H1. destruct (IH Hd) as [IHn IHk]. split.
      * constructor; [|exact IHn]. intros Hin. apply IHk in Hin as [-> | Hin];
          [congruence | contradiction].
      * intros k0. rewrite IHk. intuition.
Qed.

Lemma fold_exif items :
  forall d,
    List.NoDup (dict_keys d) ->
    let d' := fold_left exif_step items d in
    List.NoDup (dict_keys d') /\
    forall name,
      dict_get name d'
      = match last_named name items with
        | Some v => Some v
        | None => dict_get name d
        end.
Proof.
  induction items as [|[tag v] items IH]; intros d Hn; cbn.
  - auto.
  - destruct (TAGS tag) as [n|] eqn:Ht.
    + destruct (IH (dict_set n v d)) as [Hn' Hg].
      { apply dict_set_keys, Hn. }
      split; [exact Hn'|]. intros name. rewrite Hg.
      destruct (last_named name items); [reflexivity|].
      rewrite dict_get_set. now destruct (String.eqb name n).
    + destruct (IH d Hn) as [Hn' Hg]. split; [exact Hn'|].
      intros name. rewrite Hg. now destruct (last_named name items).
Qed.

End Metadata.

(** ** Styles *)

Section Styles.

Lemma append_assoc a b c : (a +:+ b) +:+ c = a +:+ (b +:+ c).
Proof.
  induction a as [|x a IH]; [reflexivity|].
  change (String x ((a +:+ b) +:+ c) = String x (a +:+ (b +:+ c))).
  now rewrite IH.
Qed.

Lemma append_empty_r s : s +:+ "" = s.
Proof.
  induction s as [|c s IH]; [reflexivity|].
  change (String c (s +:+ "") = String c s). now rewrite IH.
Qed.

Lemma visible_app a b :
  forall st,
    visible st (a +:+ b) = visible st a +:+ visible (ends_in_sequence st a) b.
Proof.
  induction a as [|c a IH]; intros st; [reflexivity|].
  change (String c a +:+ b) with (String c (a +:+ b)).
  cbn [visible ends_in_sequence]. destruct st.
  - apply IH.
  - destruct (Ascii.eqb c (ascii_of_nat 27)); [apply IH|].
    rewrite IH. reflexivity.
Qed.

Lemma ends_app a b :
  forall st,
    ends_in_sequence st (a +:+ b)
    = ends_in_sequence (ends_in_sequence st a) b.
Proof.
  induction a as [|c a IH]; intros st; [reflexivity|].
  change (String c a +:+ b) with (String c (a +:+ b)).
  cbn [ends_in_sequence]. destruct st; apply IH.
Qed.

(** [RESET] shows nothing and closes whatever sequence is open. *)
Lemma reset_closes st :
  visible st Colors.RESET = "" /\ ends_in_sequence st Colors.RESET = false.
Proof. destruct st; split; reflexivity. Qed.

(** A style, a text and [RESET] show the text. *)
Lemma wrapped_shows_text code text :
  is_style code ->
  visible false (code +:+ text +:+ Colors.RESET) = visible false text /\
  ends_in_sequence false (code +:+ text +:+ Colors.RESET) = false.
Proof.
  intros [Hv He]. rewrite !visible_app, !ends_app, Hv, He.
  destruct (reset_closes (ends_in_sequence false text)) as [-> ->].
  split; [apply append_empty_r | reflexivity].
Qed.

Lemma skipped_in_sequence s rest :
  no_m s = true ->
  visible true (s +:+ rest) = visible true rest /\
  ends_in_sequence true (s +:+ rest) = ends_in_sequence true rest.
Proof.
  induction s as [|c s IH]; intros H; [split; reflexivity|].
  cbn in H. apply andb_true_iff in H as [Hc Hs].
  change (String c s +:+ rest) with (String c (s +:+ rest)).
  cbn [visible ends_in_sequence]. rewrite Hc. now apply IH.
Qed.

Lemma no_m_digits d : no_m (NilEmpty.string_of_uint d) = true.
Proof. induction d; cbn; auto. Qed.

Lemma no_m_uint d : no_m (NilZero.string_of_uint d) = true.
Proof. destruct d; try apply no_m_digits. reflexivity. Qed.

Lemma no_m_str_of_int n : no_m (str_of_int n) = true.
Proof.
  unfold str_of_int, NilZero.string_of_int.
  destruct (Z.to_int n); cbn; apply no_m_uint.
Qed.

Lemma no_m_app a b : no_m a = true -> no_m b = true -> no_m (a +:+ b) = true.
Proof.
  induction a as [|c a IH]; intros Ha Hb; [exact Hb|].
  cbn in Ha. apply andb_true_iff in Ha as [Hc Ha].
  change (no_m (String c (a +:+ b)) = true). cbn. rewrite Hc. now apply IH.
Qed.

(** An escape character, parameters without [m], and [m]: a style. *)
Lemma sequence_is_style params :
  no_m params = true -> is_style (Colors.ESC +:+ params +:+ "m").
Proof.
  intros H. unfold is_style, Colors.ESC.
  change (String (ascii_of_nat 27) "" +:+ params +:+ "m")
    with (String (ascii_of_nat 27) (params +:+ "m")).
  cbn [visible ends_in_sequence].
  change (Ascii.eqb (ascii_of_nat 27) (ascii_of_nat 27)) with true.
  cbv iota.
  destruct (skipped_in_sequence params "m" H) as [-> ->]. split; reflexivity.
Qed.

Lemma styles_concat args :
  Forall is_style args -> is_style (String.concat "" args).
Proof.
  induction 1 as [|a args Ha _ IH]; [split; reflexivity|].
  assert (String.concat "" (a :: args) = a +:+ String.concat "" args) as ->.
  { destruct args; cbn; [now rewrite append_empty_r | reflexivity]. }
  destruct Ha as [Hv He], IH as [Hv' He']. unfold is_style.
  rewrite visible_app, ends_app, Hv, He, Hv', He'. split; reflexivity.
Qed.

Lemma plain_is_visible text : plain text = true -> visible false text = text.
Proof.
  induction text as [|c text IH]; [reflexivity|]. cbn.
  intros H. apply andb_true_iff in H as [Hc Ht].
  apply negb_true_iff in Hc. rewrite Hc. now rewrite (IH Ht).
Qed.

Lemma named_wrap :
  Forall (fun '(n, code, f) =>
            code = Colors.ESC +:+ ("[" +:+ str_of_int n) +:+ "m" /\
            forall text, f text = code +:+ text +:+ Colors.RESET)
    Colors.named.
Proof. unfold Colors.named. repeat constructor. Qed.

Lemma custom_is_wrapped code text :
  Colors.custom code text
  = (Colors.ESC +:+ ("[" +:+ str_of_int code) +:+ "m") +:+ text
    +:+ Colors.RESET.
Proof. unfold Colors.custom. rewrite !append_assoc. reflexivity. Qed.

Lemma rgb_is_wrapped r g b text :
  Colors.fg_rgb r g b text
  = (Colors.ESC
     +:+ ("[38;2;" +:+ str_of_int r +:+ ";" +:+ str_of_int g +:+ ";"
          +:+ str_of_int b) +:+ "m") +:+ text +:+ Colors.RESET /\
  Colors.bg_rgb r g b text
  = (Colors.ESC
     +:+ ("[48;2;" +:+ str_of_int r +:+ ";" +:+ str_of_int g +:+ ";"
          +:+ str_of_int b) +:+ "m") +:+ text +:+ Colors.RESET.
Proof.
  unfold Colors.fg_rgb, Colors.bg_rgb. rewrite !append_assoc.
  split; reflexivity.
Qed.

Lemma rgb_params_no_m pre r g b :
  no_m pre = true ->
  no_m (pre +:+ str_of_int r +:+ ";" +:+ str_of_int g +:+ ";"
        +:+ str_of_int b) = true.
Proof.
  intros H. repeat apply no_m_app; auto using no_m_str_of_int.
Qed.

End Styles.

(** ** The image that is encoded *)

Section MoreEncoded.
Context `{E : Externals}.
Variable c : constants.
Variables output_path format_name : string.
Variable initial_quality : Z.
Variable m : string.
Variable from : Z * Z.

Lemma resize_mode (img img' : image Pixels) w h :
  resize img w h = Ok img' -> mode img' = mode img.
Proof.
  unfold resize. destruct (lanczos _ _ _); [|discriminate].
  intros [= <-]. reflexivity.
Qed.

Lemma saved_mode_snoc l p f (img : image Pixels) q :
  Forall (saved_mode m) l -> mode img = m ->
  Forall (saved_mode m) (l ++ [ESave p f img q]).
Proof.
  intros Hl Hm. apply Forall_app. split; [exact Hl|]. repeat constructor.
  exact Hm.
Qed.

Lemma saved_mode_snoc_resize (l : list event) old new :
  Forall (saved_mode m) l -> Forall (saved_mode m) (l ++ [EResize old new]).
Proof. intros Hl. apply Forall_app. split; [exact Hl|]. repeat constructor. Qed.

Lemma down_body_encoded s :
  encoded_inv c m from s ->
  match down_body c output_path format_name initial_quality s with
  | Continue s' | Break s' => encoded_inv c m from s'
  | Raised e s' => Forall (saved_mode m) (calls s')
  end.
Proof.
  intros (Hm & Hf & Hs). unfold down_body, save, encoded_inv.
  step_cases; auto.
  all: try match goal with
           | H : resize _ _ _ = Ok _ |- _ =>
               pose proof (resize_mode _ _ _ _ H);
               apply resize_size in H
           end.
  all: rewrite ?resizes_snoc_save, ?resizes_snoc_resize, ?length_app.
  all: cbn [length].
  all: repeat match goal with |- _ /\ _ => split end.
  all: auto using saved_mode_snoc, saved_mode_snoc_resize.
  all: try (apply saved_mode_snoc; [apply saved_mode_snoc_resize|];
            auto; congruence).
  all: try congruence.
  all: rewrite Nat.add_1_r, Nat.iter_succ, <- Hs; assumption.
Qed.

Lemma up_body_encoded s :
  encoded_inv c m from s ->
  match up_body c output_path format_name s with
  | Continue s' => encoded_inv c m from s'
  | Break s' => encoded_post c m from (Done s')
  | Raised e s' => encoded_post c m from (Failed e s')
  end.
Proof.
  intros (Hm & Hf & Hs). unfold up_body, save, encoded_inv, encoded_post.
  step_cases; auto.
  all: rewrite ?resizes_snoc_save.
  all: repeat match goal with |- _ /\ _ => split end.
  all: auto using saved_mode_snoc.
Qed.

Lemma encoded_holds img fs o :
  m = mode (working_copy format_name img) ->
  from = img_size img ->
  optimize_to_target_size c output_path format_name initial_quality img fs
  = Some o ->
  encoded_post c m from o.
Proof.
  intros Hm Hfrom.
  apply (optimize_to_target_size_inv c output_path format_name
           initial_quality (encoded_inv c m from) (encoded_inv c m from)
           (encoded_post c m from)).
  - unfold save, encoded_inv, encoded_post. step_cases.
    + unfold resizes. cbn. split; [auto|]. split.
      * apply (saved_mode_snoc []); [constructor | auto].
      * rewrite Hfrom. unfold working_copy. now destruct (_ && _).
    + split; [|exact I]. apply (saved_mode_snoc []); [constructor | auto].
  - intros s Hs. apply down_body_encoded in Hs.
    destruct (down_body _ _ _ _ _); auto.
    split; [exact Hs | exact I].
  - apply up_body_encoded.
  - intros s (Hm' & Hf & Hs). split; assumption.
Qed.

End MoreEncoded.

Lemma scale_08_shrinks k w h :
  0 <= w -> 0 <= h ->
  0 <= fst (Nat.iter k scale_08 (w, h)) <= w /\
  0 <= snd (Nat.iter k scale_08 (w, h)) <= h.
Proof.
  intros Hw Hh. induction k as [|k IH]; [cbn; lia|]. rewrite Nat.iter_succ.
  set (x := Nat.iter k scale_08 (w, h)) in *. clearbody x.
  destruct x as [w' h']. cbn in *.
  pose proof (Z.quot_pos (w' * 8) 10). pose proof (Z.quot_pos (h' * 8) 10).
  assert (w' * 8 ÷ 10 <= w') by (apply Z.quot_le_upper_bound; lia).
  assert (h' * 8 ÷ 10 <= h') by (apply Z.quot_le_upper_bound; lia).
  lia.
Qed.

(** ** Jobs that do not interfere *)

Section Independent.
Context `{E : Externals}.
Variable c : constants.
Variables output_path format_name : string.
Variable initial_quality : Z.





End Independent.

Section JobsApart.
Context `{E : Externals}.
Variable g : Batch.globals.


End JobsApart.

Section Apart.
Context `{E : Externals}.
Variable g : Batch.globals.



End Apart.

Section Stems.
Context `{E : Externals}.
Variable g : Batch.globals.







End Stems.

(** ** Properties beyond the specification's claims *)

(** X1.  [optimize_to_target_size] always ends, whatever the constants, the
    initial quality, the image and the behaviour of the encoder and of the
    resize: neither of its two [while] loops can run forever, and the fuel
    given to them is never exhausted. *)
Theorem optimizer_always_ends `{E : Externals}
    (c : constants) (output_path format_name : string) (initial_quality : Z)
    (img : image Pixels) (fs : gset string) :
  exists o,
    optimize_to_target_size c output_path format_name initial_quality img fs
    = Some o.
Proof.
  apply optimize_to_target_size_returns.
Qed.

(** X2.  The triple a run returns describes the file it leaves on disk: the
    last call of the run saved the current image at the returned quality,
    the returned size is the size of that encode, and the output path
    exists.  Whether the run returns or fails, no path that existed before
    is gone and the output path is the only one that may have been added. *)
Theorem result_describes_the_file `{E : Externals}
    (c : constants) (output_path format_name : string) (initial_quality : Z)
    (img : image Pixels) (fs : gset string) :
  exists o,
    optimize_to_target_size c output_path format_name initial_quality img fs
    = Some o /\
    fs ⊆ files (final_state o) /\
    files (final_state o) ⊆ {[output_path]} ∪ fs /\
    match o with
    | Done s =>
        exists pre bytes,
          calls s
          = pre ++ [ESave output_path format_name (current_img s)
                      (snd (fst (returned s)))] /\
          encode format_name (snd (fst (returned s))) (current_img s)
          = Ok bytes /\
          fst (fst (returned s)) = size_kb bytes /\
          output_path ∈ files s
    | Failed _ _ => True
    end.
Proof.
  destruct (optimize_to_target_size_returns c output_path format_name
              initial_quality img fs) as [o Ho].
  exists o. split; [exact Ho|].
  destruct (run_described c output_path format_name initial_quality
              img fs o Ho) as [[H1 H2] Hd].
  split; [exact H1|]. split; [exact H2|].
  destruct o; [exact Hd | exact I].
Qed.

(** X3.  The 100 KB ceiling is not a guarantee.  With the module's
    constants, a run can return a size above 100 KB in two situations only:
    it has made all five resizes and the quality is at the floor of 30 or
    below, or its last two encodes were at qualities 98 and 93 (the upward
    phase stepped from above 93 to the cap, overshot, and its revert
    landed on a quality never tried before). *)
Theorem over_budget_only_when_exhausted_or_reverted `{E : Externals}
    (output_path format_name : string) (initial_quality : Z)
    (img : image Pixels) (fs : gset string) :
  exists o,
    optimize_to_target_size module_constants output_path format_name
      initial_quality img fs = Some o /\
    match o with
    | Done s =>
        (fst (fst (returned s)) <= 100)%Q \/
        (length (resizes (calls s)) = 5%nat /\ snd (fst (returned s)) <= 30)
        \/ (exists pre, save_qualities (calls s) = pre ++ [98; 93])
    | Failed _ _ => True
    end.
Proof.
  destruct (optimize_to_target_size_returns module_constants output_path
              format_name initial_quality img fs) as [o Ho].
  exists o. split; [exact Ho|].
  pose proof (budget_holds output_path format_name initial_quality
                img fs o Ho) as H.
  destruct o; [exact H | exact I].
Qed.

(** The second situation of the property before does occur: with an
    encoder that is not monotone in the quality the run returns 150 KB,
    above the ceiling, without a single resize. *)
Example revert_can_exceed_the_ceiling :
  exists s,
    optimize_to_target_size (E := spiky) module_constants "out/s.webp"
      "WEBP" 80
      {| width := 100; height := 100; mode := "RGB"; exif_raw := None;
         pixels := tt |} ∅ = Some (Done s) /\
    returned s = (size_kb 153600, 93, false) /\
    save_qualities (calls s) = [80; 85; 90; 95; 98; 93] /\
    resizes (calls s) = [].
Proof. apply (run_summary_done (E := spiky)). vm_compute. reflexivity. Qed.

(** X4.  The flag a run returns is true exactly when the run resized the
    image at least once; and a run that resized never encodes above
    [initial_quality] and returns a quality of at most [initial_quality]:
    the upward phase is not entered after a resize. *)
Theorem resized_flag_is_exact `{E : Externals}
    (c : constants) (output_path format_name : string) (initial_quality : Z)
    (img : image Pixels) (fs : gset string) :
  exists o,
    optimize_to_target_size c output_path format_name initial_quality img fs
    = Some o /\
    match o with
    | Done s =>
        (snd (returned s) = true <-> resizes (calls s) <> []) /\
        (snd (returned s) = true ->
         Forall (save_quality_at_most initial_quality) (calls s) /\
         snd (fst (returned s)) <= initial_quality)
    | Failed _ _ => True
    end.
Proof.
  destruct (optimize_to_target_size_returns c output_path format_name
              initial_quality img fs) as [o Ho].
  exists o. split; [exact Ho|].
  exact (flag_holds c output_path format_name initial_quality img fs o Ho).
Qed.

(** X5.  The number of encodes of a run is bounded.  Started at a quality
    q0 in [30, 98] with the module's constants, a run makes at most
    6 * (1 + w) encodes, w being the number of steps of 5 from q0 down to
    30, or w + 16 if that is more: 66 encodes for q0 = 80. *)
Theorem encodes_are_bounded `{E : Externals}
    (output_path format_name : string) (initial_quality : Z)
    (img : image Pixels) (fs : gset string) :
  30 <= initial_quality <= 98 ->
  exists o,
    optimize_to_target_size module_constants output_path format_name
      initial_quality img fs = Some o /\
    encodes (calls (final_state o))
    <= Z.max (6 * (1 + (initial_quality - 26) / 5))
             ((initial_quality - 26) / 5 + 16).
Proof.
  intros Hr.
  destruct (optimize_to_target_size_returns module_constants output_path
              format_name initial_quality img fs) as [o Ho].
  exists o. split; [exact Ho|].
  exact (encodes_hold output_path format_name initial_quality Hr img fs o Ho).
Qed.

Lemma encodes_are_bounded_witness :
  30 <= 80 <= 98 /\
  exists o,
    optimize_to_target_size module_constants "photos/out/big.webp" "WEBP"
      80 (sample_image 1000 1000 None 1) ∅ = Some o /\
    encodes (calls (final_state o)) <= Z.max (6 * (1 + (80 - 26) / 5))
                                             ((80 - 26) / 5 + 16).
Proof.
  split; [lia|].
  apply (encodes_are_bounded (E := sample) "photos/out/big.webp" "WEBP" 80
           (sample_image 1000 1000 None 1) ∅).
  lia.
Defined.


(** X6.  What is encoded.  Every encode of a run is given an image in the
    mode of the working copy: RGB when the format is JPEG and the source is
    RGBA, the source's mode otherwise; resizes do not change it.  The image
    of the returned file has the size of the source scaled by 0.8, both
    dimensions truncated, once per resize made; it is never larger than the
    source. *)
Theorem encoded_image_keeps_mode_and_shrinks `{E : Externals}
    (output_path format_name : string) (initial_quality : Z)
    (img : image Pixels) (fs : gset string) :
  exists o,
    optimize_to_target_size module_constants output_path format_name
      initial_quality img fs = Some o /\
    Forall (saved_mode
              (if String.eqb (upper format_name) "JPEG"
                  && String.eqb (mode img) "RGBA"
               then "RGB" else mode img))
      (calls (final_state o)) /\
    match o with
    | Done s =>
        img_size (current_img s)
        = Nat.iter (length (resizes (calls s))) scale_08 (img_size img) /\
        (0 <= width img -> 0 <= height img ->
         0 <= width (current_img s) <= width img /\
         0 <= height (current_img s) <= height img)
    | Failed _ _ => True
    end.
Proof.
  destruct (optimize_to_target_size_returns module_constants output_path
              format_name initial_quality img fs) as [o Ho].
  exists o. split; [exact Ho|].
  destruct (encoded_holds module_constants output_path format_name
              initial_quality
              (mode (working_copy format_name img)) (img_size img)
              img fs o eq_refl eq_refl Ho) as [Hf Hd].
  split.
  - unfold working_copy in Hf. destruct (_ && _); exact Hf.
  - destruct o as [s|e s]; [|exact I]. split; [exact Hd|].
    intros Hw Hh.
    pose proof (scale_08_shrinks (length (resizes (calls s)))
                  (width img) (height img) Hw Hh) as Hk.
    change (scale_by (RESIZE_FACTOR module_constants)) with scale_08 in Hd.
    unfold img_size in Hd at 2. rewrite <- Hd in Hk. exact Hk.
Qed.

(** X7.  A job of the batch script is skipped exactly when both of its
    outputs, the WebP and the AVIF file, exist beforehand, whatever the
    selection; a skipped job makes no call and leaves the folder as it
    was, but for the output folder it creates. *)
Theorem skipped_iff_both_outputs_exist `{E : Externals} (g : Batch.globals)
    (p : pypath) (fs : gset string) :
  exists j,
    Batch.optimize_image g p fs = Some j /\
    (Batch.status_of (job_result j) = "skipped"
     <-> output_of g p "webp" ∈ fs /\ output_of g p "avif" ∈ fs) /\
    (Batch.status_of (job_result j) = "skipped" ->
     job_calls j = [] /\ job_files j = {[output_dir g p]} ∪ fs).
Proof.
  destruct (job_has_effects g p fs) as (j & Hj & _ & _ & _ & H4 & H5 & _).
  exists j. auto.
Qed.

(** X8.  What a job leaves in the folder.  No path that existed is gone,
    and nothing is added but the output folder and the job's two outputs.
    A successful job was run with selection 1, 2 or 3 and leaves the
    outputs selected: with 1 the WebP file and no AVIF file, with 2 the
    AVIF file and no WebP file, with 3 both. *)
Theorem job_leaves_the_selected_outputs `{E : Externals} (g : Batch.globals)
    (p : pypath) (fs : gset string) :
  exists j,
    Batch.optimize_image g p fs = Some j /\
    fs ⊆ job_files j /\
    output_dir g p ∈ job_files j /\
    job_files j
    ⊆ {[output_dir g p]} ∪ {[output_of g p "webp"]}
      ∪ {[output_of g p "avif"]} ∪ fs /\
    (Batch.status_of (job_result j) = "success" ->
     (Batch.format_decision g = 1 /\ output_of g p "webp" ∈ job_files j /\
      job_files j ⊆ {[output_dir g p]} ∪ {[output_of g p "webp"]} ∪ fs) \/
     (Batch.format_decision g = 2 /\ output_of g p "avif" ∈ job_files j /\
      job_files j ⊆ {[output_dir g p]} ∪ {[output_of g p "avif"]} ∪ fs) \/
     (Batch.format_decision g = 3 /\ output_of g p "webp" ∈ job_files j /\
      output_of g p "avif" ∈ job_files j)).
Proof.
  destruct (job_has_effects g p fs) as (j & Hj & H1 & H2 & H3 & _ & _ & H6).
  exists j. auto.
Qed.

(** X9.  A job encodes to its own two output paths only, WEBP to the one
    and AVIF to the other; with selection 1 it makes no AVIF encode and
    with selection 2 no WEBP encode. *)
Theorem job_encodes_what_was_selected `{E : Externals} (g : Batch.globals)
    (p : pypath) (fs : gset string) :
  exists j,
    Batch.optimize_image g p fs = Some j /\
    Forall (fun ev => call_of (output_of g p "webp") "WEBP" ev \/
                      call_of (output_of g p "avif") "AVIF" ev)
           (job_calls j) /\
    (Batch.format_decision g = 1 ->
     Forall (call_of (output_of g p "webp") "WEBP") (job_calls j)) /\
    (Batch.format_decision g = 2 ->
     Forall (call_of (output_of g p "avif") "AVIF") (job_calls j)).
Proof. exact (job_writes g p fs). Qed.

(** X10.  Two sources that differ in their extension only share their
    outputs.  With the selection "both", once the job of one of them has
    succeeded, the job of any source in the same folder with the same stem
    (the same source again, or [a.jpg] after [a.png]) is skipped as
    "Already optimized", without a call, however the folder has grown
    since. *)
Theorem same_stem_is_skipped `{E : Externals} (name : string) (p : pypath)
    (other_suffix : string) (fs : gset string) :
  exists j,
    Batch.optimize_image (Batch.loaded name 3) p fs = Some j /\
    (Batch.status_of (job_result j) = "success" ->
     forall fs', job_files j ⊆ fs' ->
       let p' := {| parent := parent p; stem := stem p;
                    suffix := other_suffix |} in
       exists fs'',
         Batch.optimize_image (Batch.loaded name 3) p' fs'
         = Some {| job_result := Batch.skipped_result (path_str p');
                   job_files := fs''; job_calls := [] |}).
Proof.
  destruct (job_has_effects (Batch.loaded name 3) p fs)
    as (j & Hj & _ & _ & _ & _ & _ & H6).
  exists j. split; [exact Hj|]. intros Hs fs' Hsub p'.
  destruct (H6 Hs) as [(H & _) | [(H & _) | (_ & Hw & Ha)]];
    [discriminate H | discriminate H |].
  destruct (job_skipped (Batch.loaded name 3) p' fs') as (fs'' & Hj' & _).
  - eapply elem_of_weaken; [exact Hw | exact Hsub].
  - eapply elem_of_weaken; [exact Ha | exact Hsub].
  - eauto.
Qed.

(** X11.  The counters of a batch count the statuses of its details:
    [total] is the number of images and of details, every detail has the
    status success, skipped or error, and [successful], [skipped] and
    [failed] are the numbers of details with each of them. *)
Theorem counters_count_the_statuses `{E : Externals} (g : Batch.globals)
    (image_files : list pypath) (max_workers : Z) (fs : gset string) :
  exists run,
    Batch.process_batch g image_files max_workers fs = Some run /\
    let r := Batch.results run in
    Batch.total r = Z.of_nat (length image_files) /\
    length (Batch.details r) = length image_files /\
    Forall known_status (Batch.details r) /\
    Batch.successful r = count_status "success" (Batch.details r) /\
    Batch.skipped r = count_status "skipped" (Batch.details r) /\
    Batch.failed r = count_status "error" (Batch.details r).
Proof.
  unfold Batch.process_batch.
  match goal with
  | |- context [Batch.run_jobs g ?l ?r ?f ?c] =>
      destruct (run_jobs_spec g l r f c)
        as (r' & fs' & cs' & ds & Hrun & _ & Ht & Hd & Hlen & Hall
            & Hs & Hsk & Hf & _)
  end.
  rewrite Hrun. cbn in Ht, Hd, Hs, Hsk, Hf. eexists. split; [reflexivity|].
  cbn [Batch.results]. rewrite Hd. repeat split; auto; lia.
Qed.

(** X12.  The exit status of the batch script.  With no image found [main]
    returns 1 without running a job.  Otherwise it returns 0 exactly when
    no detail has the status error, and 1 if one has: skipped jobs do not
    count as failures, so a run that skipped everything exits with 0. *)
Theorem exit_status_zero_iff_no_error `{E : Externals} (g : Batch.globals)
    (image_files : list pypath) (workers : Z) (fs : gset string) :
  match image_files with
  | [] => Batch.main g image_files workers fs = Some (1, None)
  | _ :: _ =>
      exists code run,
        Batch.main g image_files workers fs = Some (code, Some run) /\
        (code = 0 \/ code = 1) /\
        (code = 0 <->
         Forall (fun v => Batch.status_of v <> "error")
           (Batch.details (Batch.results run)))
  end.
Proof.
  destruct image_files as [|p rest]; [reflexivity|].
  unfold Batch.main, Batch.process_batch.
  match goal with
  | |- context [Batch.run_jobs g ?l ?r ?f ?c] =>
      destruct (run_jobs_spec g l r f c)
        as (r' & fs' & cs' & ds & Hrun & _ & _ & Hd & _ & Hall
            & _ & _ & Hf & _)
  end.
  rewrite Hrun. cbn in Hd, Hf. rewrite Z.add_0_l in Hf.
  eexists _, _. split; [reflexivity|].
  cbn [Batch.results]. rewrite Hd, <- (no_error_count ds Hall), Hf.
  pose proof (count_status_nonneg "error" ds).
  destruct (count_status "error" ds =? 0) eqn:Hz;
    [apply Z.eqb_eq in Hz | apply Z.eqb_neq in Hz].
  - split; [left; reflexivity | split; auto].
  - split; [right; reflexivity | split; [discriminate | contradiction]].
Qed.




(** X15.  The images the batch script finds in a folder.  A path that is
    missing or is not a directory yields none.  In a directory the
    images found are the entries whose name ends with one of the six
    spellings .jpg, .JPG, .jpeg, .JPEG, .png, .PNG, and an entry is found
    once: no image is handed to the pool twice. *)
Theorem found_images_are_the_matching_entries (folder : string) :
  Batch.find_images_in_folder folder Missing = [] /\
  Batch.find_images_in_folder folder NotADirectory = [] /\
  forall names,
    (forall p,
       In p (Batch.find_images_in_folder folder (Directory names))
       <-> exists name pre ext,
             In name names /\ In ext spellings /\ name = pre +:+ ext /\
             p = path_in folder name) /\
    (List.NoDup names ->
     List.NoDup (Batch.find_images_in_folder folder (Directory names))).
Proof.
  split; [reflexivity|]. split; [reflexivity|]. intros names. split.
  - intros p. rewrite found_iff. split.
    + intros (name & ext & Hn & He & Hm & ->).
      apply ends_with_iff in Hm as (pre & ->). eauto 10.
    + intros (name & pre & ext & Hn & He & -> & ->).
      exists (pre +:+ ext), ext. repeat split; auto.
      apply ends_with_iff. eauto.
  - apply found_nodup.
Qed.

(** X16.  The batch script on a folder.  [main] runs no job exactly when
    no image is found, and then it returns 1; and no image is found exactly
    when the folder is missing, is not a directory, or has no entry whose
    name ends with one of the six spellings. *)
Theorem folder_without_images_exits_with_1 `{E : Externals}
    (g : Batch.globals) (folder : string) (d : on_disk) (workers : Z)
    (fs : gset string) :
  exists code orun,
    Batch.main_in_folder g folder d workers fs = Some (code, orun) /\
    (orun = None <-> Batch.find_images_in_folder folder d = []) /\
    (orun = None -> code = 1) /\
    (Batch.find_images_in_folder folder d = []
     <-> match d with
         | Directory names =>
             forall name ext,
               In name names -> In ext spellings ->
               ends_with ext name = false
         | _ => True
         end).
Proof.
  assert (Batch.find_images_in_folder folder d = []
          <-> match d with
              | Directory names =>
                  forall name ext,
                    In name names -> In ext spellings ->
                    ends_with ext name = false
              | _ => True
              end) as Hnone.
  { destruct d as [| |names]; [split; auto | split; auto |]. split.
    - intros Hnil name ext Hn He.
      destruct (ends_with ext name) eqn:Hm; [|reflexivity].
      assert (In (path_in folder name)
                (Batch.find_images_in_folder folder (Directory names))) as Hin
        by (apply found_iff; eauto 10).
      rewrite Hnil in Hin. destruct Hin.
    - intros Hall.
      destruct (Batch.find_images_in_folder folder (Directory names))
        as [|p rest] eqn:Hf; [reflexivity|].
      assert (In p (Batch.find_images_in_folder folder (Directory names)))
        as Hin by (rewrite Hf; now left).
      apply found_iff in Hin as (name & ext & Hn & He & Hm & _).
      rewrite (Hall name ext Hn He) in Hm. discriminate. }
  unfold Batch.main_in_folder, Batch.main.
  destruct (Batch.find_images_in_folder folder d) as [|p rest].
  - exists 1, None. split; [reflexivity|]. split; [split; auto|].
    split; [auto | exact Hnone].
  - destruct (process_batch_returns g (p :: rest) workers fs)
      as (run & -> & _).
    eexists _, _. split; [reflexivity|].
    split; [split; discriminate|]. split; [discriminate | exact Hnone].
Qed.

(** X17.  The two scripts disagree on extensions in mixed case.  An entry
    whose extension is supported once lowered, but is written neither all
    in lower case nor all in upper case (photo.Jpg), is not found by the
    batch script, whereas the single-image script lowers the extension
    before its check and goes on to optimize the file. *)
Theorem mixed_case_extension_is_not_found `{E : Externals}
    (folder name : string) (names : list string) (fs : gset string) :
  In (lower (snd (py_split name))) [".jpg"; ".jpeg"; ".png"] ->
  ~ In (snd (py_split name)) spellings ->
  ~ In (path_in folder name)
       (Batch.find_images_in_folder folder (Directory names)) /\
  Optimizer.main (path_in folder name) true fs
  = match Optimizer.optimize_image (path_in folder name) fs with
    | None => None
    | Some j => Some (if truthy (job_result j) then 0 else 1, Some j)
    end.
Proof.
  intros Hlow Hmixed. split.
  - intros Hin. apply found_suffix in Hin as [Hs | [Hs _]].
    + exact (Hmixed Hs).
    + cbn in Hs. rewrite Hs in Hlow. cbn in Hlow.
      intuition discriminate.
  - unfold Optimizer.main. cbn [negb suffix path_in].
    assert (existsb (String.eqb (lower (snd (py_split name))))
              [".jpg"; ".jpeg"; ".png"] = true) as ->.
    { apply existsb_exists. exists (lower (snd (py_split name))).
      split; [exact Hlow | apply String.eqb_refl]. }
    reflexivity.
Qed.

Lemma mixed_case_extension_is_not_found_witness :
  ~ In (path_in "photos" "a.Jpg")
       (Batch.find_images_in_folder "photos" (Directory ["a.Jpg"; "b.png"]))
  /\
  Optimizer.main (path_in "photos" "a.Jpg") true ∅
  = match Optimizer.optimize_image (path_in "photos" "a.Jpg") ∅ with
    | None => None
    | Some j => Some (if truthy (job_result j) then 0 else 1, Some j)
    end.
Proof.
  apply (mixed_case_extension_is_not_found (E := sample) "photos" "a.Jpg"
           ["a.Jpg"; "b.png"] ∅).
  - left. reflexivity.
  - cbn. intuition discriminate.
Defined.

(** X18.  The exit status of the single-image script.  [main] returns 0 or
    1; it returns 0 exactly when the path is a file, its extension lowered
    is .jpg, .jpeg or .png, and [optimize_image] returned a dictionary; and
    then both outputs, the WebP and the AVIF file, exist.  When the path is
    not a file or the extension is not supported, no job is run. *)
Theorem single_image_exit_status `{E : Externals} (image : pypath)
    (isfile : bool) (fs : gset string) :
  exists code oj,
    Optimizer.main image isfile fs = Some (code, oj) /\
    (code = 0 \/ code = 1) /\
    (code = 0 <->
     isfile = true /\
     In (lower (suffix image)) [".jpg"; ".jpeg"; ".png"] /\
     exists j, oj = Some j /\ job_result j <> VNone) /\
    (code = 0 ->
     exists j,
       oj = Some j /\
       single_output_of image "webp" ∈ job_files j /\
       single_output_of image "avif" ∈ job_files j) /\
    (oj = None <->
     isfile = false \/
     ~ In (lower (suffix image)) [".jpg"; ".jpeg"; ".png"]).
Proof.
  unfold Optimizer.main. cbv zeta.
  destruct isfile; cbn [negb].
  2: { exists 1, None. split; [reflexivity|]. split; [auto|].
       split; [split; [discriminate | intros [? _]; discriminate]|].
       split; [discriminate | split; auto]. }
  destruct (existsb _ _) eqn:Hx; cbn [negb].
  2: { exists 1, None. split; [reflexivity|]. split; [auto|].
       assert (~ In (lower (suffix image)) [".jpg"; ".jpeg"; ".png"]) as Hn.
       { intros Hin. apply not_true_iff_false in Hx. apply Hx.
         apply existsb_exists. eexists. split; [exact Hin|].
         apply String.eqb_refl. }
       split; [split; [discriminate | intros (_ & ? & _); contradiction]|].
       split; [discriminate | split; auto]. }
  assert (In (lower (suffix image)) [".jpg"; ".jpeg"; ".png"]) as Hin.
  { apply existsb_exists in Hx as (x & Hin & Heq).
    apply String.eqb_eq in Heq. now subst x. }
  destruct (single_job_outcome image fs) as (j & -> & _ & [Hn | (Ht & Hw & Ha)]).
  - rewrite Hn. cbn [truthy]. exists 1, (Some j). split; [reflexivity|].
    split; [auto|].
    split; [split; [discriminate|]|].
    + intros (_ & _ & j' & [= <-] & Hne). contradiction.
    + split; [discriminate|]. split; [discriminate|].
      intros [? | ?]; [discriminate | contradiction].
  - rewrite Ht. exists 0, (Some j). split; [reflexivity|]. split; [auto|].
    split; [split; [intros _|reflexivity]|].
    + split; [reflexivity|]. split; [exact Hin|]. exists j.
      split; [reflexivity|]. intros Hn. rewrite Hn in Ht. discriminate.
    + split; [intros _; eauto|]. split; [discriminate|].
      intros [? | ?]; [discriminate | contradiction].
Qed.

(** X19.  What [preserve_metadata] extracts.  Without a raw EXIF mapping,
    or with an empty one, it returns [None].  Otherwise it returns a
    dictionary with distinct keys in which a name is bound exactly when
    some raw tag has that name in [TAGS], to the value of the last such
    tag; tags that [TAGS] does not name are dropped. *)
Theorem metadata_maps_names_to_last_values `{E : Externals}
    (img : image Pixels) :
  match exif_raw img with
  | Some (item :: items) =>
      exists d,
        preserve_metadata img = VDict d /\
        List.NoDup (dict_keys d) /\
        forall name, dict_get name d = last_named name (item :: items)
  | _ => preserve_metadata img = VNone
  end.
Proof.
  unfold preserve_metadata.
  destruct (exif_raw img) as [[|item items]|]; try reflexivity.
  eexists. split; [reflexivity|].
  destruct (fold_exif (item :: items) [] (List.NoDup_nil _)) as [Hn Hg].
  split; [exact Hn|]. intros name. rewrite Hg.
  now destruct (last_named name (item :: items)).
Qed.

(** X20.  The styles of [colors.py] change what a terminal shows in
    nothing but the style: of the result of each of the 24 named methods,
    of [custom] with any code, of [fg_rgb] and [bg_rgb] with any values
    (in range or not), and of [combine] with styles as arguments, the
    visible text is the visible text of the argument, which for a text
    without escape characters is the text itself. *)
Theorem styles_keep_the_text :
  Forall (fun '(_, _, f) =>
            forall text, visible false (f text) = visible false text)
    Colors.named /\
  (forall code text,
     visible false (Colors.custom code text) = visible false text) /\
  (forall r g b text,
     visible false (Colors.fg_rgb r g b text) = visible false text /\
     visible false (Colors.bg_rgb r g b text) = visible false text) /\
  (forall args text,
     Forall is_style args ->
     visible false (Colors.combine args text) = visible false text) /\
  (forall text, plain text = true -> visible false text = text).
Proof.
  split; [|split; [|split; [|split]]].
  - eapply Forall_impl; [exact named_wrap|].
    intros [[n code] f] [-> Hf] text. rewrite Hf.
    apply wrapped_shows_text, sequence_is_style, no_m_app;
      [reflexivity | apply no_m_str_of_int].
  - intros code text. rewrite custom_is_wrapped.
    apply wrapped_shows_text, sequence_is_style, no_m_app;
      [reflexivity | apply no_m_str_of_int].
  - intros r g b text. destruct (rgb_is_wrapped r g b text) as [-> ->].
    split; apply wrapped_shows_text, sequence_is_style, rgb_params_no_m;
      reflexivity.
  - intros args text Hs. unfold Colors.combine.
    apply wrapped_shows_text, styles_concat, Hs.
  - exact plain_is_visible.
Qed.

(** X21.  How the styles relate.  Each named method gives what [custom]
    gives with the number of its code, and what [combine] gives with its
    constant alone.  A named method applied to the result of another gives
    what [combine] gives with both constants, followed by a second
    [RESET]: text appended after the inner result, inside the outer
    method's argument, is shown without the outer style. *)
Theorem named_styles_are_codes_and_nest :
  Forall (fun '(n, code, f) =>
            forall text,
              f text = Colors.custom n text /\
              f text = Colors.combine [code] text)
    Colors.named /\
  (forall n1 code1 f1 n2 code2 f2 text,
     In (n1, code1, f1) Colors.named -> In (n2, code2, f2) Colors.named ->
     f1 (f2 text)
     = Colors.combine [code1; code2] text +:+ Colors.RESET).
Proof.
  split.
  - unfold Colors.named. repeat constructor.
  - intros n1 code1 f1 n2 code2 f2 text H1 H2.
    pose proof (proj1 (List.Forall_forall _ _) named_wrap) as Hw.
    destruct (Hw _ H1) as [_ ->], (Hw _ H2) as [_ ->].
    unfold Colors.combine. cbn [String.concat].
    rewrite !append_assoc. reflexivity.
Qed.
